(** * EEGLib.EEG: trial alignment, trial extraction and volume statistics

    A shallow embedding of [src/EEGLib/EEG.py] (class [EEG]) and the
    properties of its error-labelling and trial-extraction pipeline.

    Conventions of the embedding:
    - Python and NumPy floating-point numbers (times in seconds, sample
      values) are exact rationals [Qc]; integer outcome codes are [Z].
      The statements that hold only without rounding say so; the module
      [binary64] replays the common-average reference in IEEE 754
      binary64, where the rounding shows.
    - A 2-D array is the list of its rows, a trial volume the list of its
      trials (trial x channel x sample).  NumPy arrays are rectangular; the
      theorems that need it say so with [rectangular].
    - Python exceptions are the [Raise] case of [result]; the implicit
      [None] of a function that falls off its end is an [option].
    - ndarray objects that are written in place live in a [Heap]. *)

From Stdlib Require Import ZArith QArith Qcanon Qround List String Lia Field Bool.
From Stdlib Require Import Qcabs Permutation.
From Stdlib Require PrimFloat.
From stdpp Require Import base option list.
Import ListNotations.

Local Open Scope nat_scope.

(** ** Python values and control *)

Module Py.

Inductive exn : Type :=
| IOError
| TypeError
| IndexError
| AttributeError
| ValueError.

Inductive result (A : Type) : Type :=
| Ok (a : A)
| Raise (e : exn).
Arguments Ok {A} a.
Arguments Raise {A} e.

#[global] Instance result_ret : MRet result := fun A a => Ok a.
#[global] Instance result_bind : MBind result := fun A B f m =>
  match m with
  | Ok a => f a
  | Raise e => Raise e
  end.

(** [for a in l: s = body(s, a)], stopping at the first exception. *)
Fixpoint for_each {A S : Type} (body : S -> A -> result S) (l : list A) (s : S)
  : result S :=
  match l with
  | [] => Ok s
  | a :: l' => s' ← body s a; for_each body l' s'
  end.

(** [range(n)] *)
Definition range (n : nat) : list nat := seq 0 n.

(** Reading an attribute that [__init__] left at its placeholder. *)
Definition attr {A : Type} (field : option A) : result A :=
  match field with
  | Some a => Ok a
  | None => Raise AttributeError
  end.

(** A slice bound [i] of a sequence of length [n], as Python clamps it:
    a negative bound counts from the end. *)
Definition norm (n : nat) (i : Z) : nat :=
  Z.to_nat (if (i <? 0)%Z then Z.max 0 (i + Z.of_nat n) else Z.min i (Z.of_nat n)).

(** [l[start:stop]]; [None] is an omitted bound. *)
Definition slice {A : Type} (start stop : option Z) (l : list A) : list A :=
  let n := length l in
  let a := from_option (norm n) 0 start in
  let b := from_option (norm n) n stop in
  take (b - a) (drop a l).

(** [l[i]] on a Python list with a non-negative index. *)
Definition getitem {A : Type} (l : list A) (i : nat) : result A :=
  match l !! i with
  | Some a => Ok a
  | None => Raise IndexError
  end.

(** [int(q)]: truncation toward zero. *)
Definition int (q : Qc) : Z := Z.quot (Qnum q) (Zpos (Qden q)).

(** [sub in s] on strings. *)
Fixpoint contains (sub s : string) : bool :=
  if String.prefix sub s then true
  else match s with
       | EmptyString => false
       | String _ s' => contains sub s'
       end.

End Py.
Import Py.

(** ** NumPy arrays *)

Module np.

Definition of_Z (z : Z) : Qc := Q2Qc (inject_Z z).
Definition of_nat (n : nat) : Qc := of_Z (Z.of_nat n).

(** [a.shape[1]] of a 2-D array given by its rows. *)
Definition shape1 {A : Type} (a : list (list A)) : nat :=
  match a with
  | [] => 0
  | r :: _ => length r
  end.

(** Every row of a 2-D array has [a.shape[1]] entries. *)
Definition rectangular {A : Type} (a : list (list A)) : Prop :=
  Forall (fun r => length r = shape1 a) a.

(** [a[:, start:stop]] *)
Definition cols {A : Type} (start stop : option Z) (a : list (list A))
  : list (list A) :=
  map (slice start stop) a.

(** [a[r, x]] for non-negative indices. *)
Definition at2 {A : Type} (a : list (list A)) (r x : nat) : result A :=
  match a !! r with
  | Some row => getitem row x
  | None => Raise IndexError
  end.

(** [.astype(np.uint)] of a float: truncation, then the 64-bit
    unsigned wrap-around.  Inside the range of the unsigned 64-bit
    integers this is the truncation itself.  Outside of it the C cast
    behind NumPy's is undefined and its result depends on the platform
    (an over-range value can come out as 0); the wrap-around stands for
    it here, and onsets, which are times from the start of a recording,
    stay inside the range. *)
Definition astype_uint (q : Qc) : Z := (Py.int q) mod 2 ^ 64.

End np.
Import np.

(** ** The collaborators: MNE recordings and the behaviour log *)

Module mne.

Record Annotations : Type := {
  onset : list Qc;
  description : list string
}.

(** A preloaded [mne.io.Raw]: [_data] is channels x time. *)
Record Raw : Type := {
  sfreq : Qc;
  ch_names : list string;
  _data : list (list Qc);
  annotations : Annotations
}.

Definition n_times (raw : Raw) : nat := shape1 (_data raw).

End mne.
Import mne.

(** Modelled from the spec: the class [EE385VMatFile] (module
    [EEGLib.EE385VMatFile]) is not among the sources.  The spec's
    BehaviorRecord is "a 2D state matrix (2 rows x trial count) where
    row 0 = intended outcome code, row 1 = actual outcome code per trial,
    plus an action sequence"; [states] holds the matrix by rows and
    [actions] the action sequence. *)
Record EE385VMatFile : Type := {
  actions : list Z;
  states : list (list Z)
}.

(** ** The class [EEG] *)

(** The error label of a trial: Python's [True], [False] and [np.NaN]. *)
Inductive ErrorLabel : Type :=
| LTrue
| LFalse
| NaN.

Record EEG : Type := {
  __gdf : option Raw;
  __mat : option EE385VMatFile;
  __eeg : option Raw;
  __trigger : option (list (list Qc))
}.

(** [EEG.__init__]: every field holds a placeholder. *)
Definition __init__ : EEG :=
  {| __gdf := None; __mat := None; __eeg := None; __trigger := None |}.

(** The local variables of [identifyErrors] before its loop. *)
Record identifyErrors_locals : Type := {
  annotation_time : list Qc;
  annotation_desc : list string;
  intention : list Z;
  states_ : list (list Z)
}.

Definition identifyErrors_prologue (gdf : Raw) (mat : EE385VMatFile)
  : identifyErrors_locals :=
  let annotation_time := slice (Some 1%Z) None (onset (annotations gdf)) in
  let annotation_time := slice None (Some (-1)%Z) annotation_time in
  let annotation_desc := slice (Some 1%Z) None (description (annotations gdf)) in
  let annotation_desc := slice None (Some (-1)%Z) annotation_desc in
  let intention := actions mat in
  let states := cols (Some 1%Z) None (states mat) in
  let states := cols None (Some (Z.of_nat (length intention))) states in
  {| annotation_time := annotation_time;
     annotation_desc := annotation_desc;
     intention := intention;
     states_ := states |}.

(** The body of the loop of [identifyErrors] at trial column [x]. *)
Definition identifyErrors_label (states : list (list Z)) (x : nat)
  : result ErrorLabel :=
  s0 ← at2 states 0 x;
  if (s0 <? 0)%Z then Ok NaN
  else
    s1 ← at2 states 1 x;
    if negb (s0 =? s1)%Z then Ok LTrue else Ok LFalse.

(** [EEG.identifyErrors].  The sum [total_error] it also computes is not
    used. *)
Definition identifyErrors (self : EEG) : result (list ErrorLabel * list Qc) :=
  gdf ← attr (__gdf self);
  mat ← attr (__mat self);
  let L := identifyErrors_prologue gdf mat in
  error ← for_each
    (fun error x => l ← identifyErrors_label (states_ L) x; Ok (error ++ [l]))
    (range (shape1 (states_ L))) [];
  Ok (error, annotation_time L).

(** *** Opening a recording *)

Module mne_ops.

(** [raw.get_data(start=start, stop=stop)] on preloaded data: [stop] is
    capped at [n_times], then every channel is sliced [start:stop] as
    Python slices, a negative [start] counting from the end (MNE up to
    0.23; later releases clamp both bounds to the recording instead). *)
Definition get_data (raw : Raw) (start stop : Z) : list (list Qc) :=
  let stop := Z.min stop (Z.of_nat (n_times raw)) in
  cols (Some start) (Some stop) (_data raw).

Definition named (raw : Raw) : list (string * list Qc) :=
  zip (ch_names raw) (_data raw).

(** [raw.get_data(picks=name)] *)
Definition get_data_picks (raw : Raw) (name : string) : list (list Qc) :=
  map snd (List.filter (fun p => String.eqb (fst p) name) (named raw)).

(** [raw.drop_channels(name)]: in place, and returns the object.  MNE
    raises [ValueError] for a name the recording does not have, and when
    no channel would be left. *)
Definition drop_channels (raw : Raw) (name : string) : result Raw :=
  if negb (existsb (String.eqb name) (ch_names raw)) then Raise ValueError
  else
    let kept :=
      List.filter (fun p => negb (String.eqb (fst p) name)) (named raw) in
    match kept with
    | [] => Raise ValueError
    | _ :: _ =>
        Ok {| sfreq := sfreq raw;
              ch_names := map fst kept;
              _data := map snd kept;
              annotations := annotations raw |}
    end.

(** [raw.apply_function(fun)]: in place on every sample, and returns
    the object. *)
Definition apply_function (raw : Raw) (f : Qc -> Qc) : Raw :=
  {| sfreq := sfreq raw;
     ch_names := ch_names raw;
     _data := map (map f) (_data raw);
     annotations := annotations raw |}.

End mne_ops.
Import mne_ops.

(** What [self.__gdf.ch_names] evaluates to: the channel names of a
    recording, or, while [__gdf] is still the class [mne.io.Raw] that
    [__init__] stored, the property object [ch_names] of that class. *)
Inductive ChannelNames : Type :=
| Names (names : list string)
| PropertyObject.

(** [EEG.getChannelNames] *)
Definition getChannelNames (self : EEG) : ChannelNames :=
  match __gdf self with
  | Some gdf => Names (ch_names gdf)
  | None => PropertyObject
  end.

(** The loop of [splitTrigger] over the channel names: the first name
    that contains [trigger] ends it with a pair, and running off the
    names is the implicit [None]. *)
Fixpoint splitTrigger_loop (gdf : Raw) (trigger : string) (names : list string)
  : result (option (Raw * list (list Qc))) :=
  match names with
  | [] => Ok None
  | channels :: names' =>
      if contains trigger channels then
        let trigger := get_data_picks gdf channels in
        data_no_trigger ← drop_channels gdf channels;
        Ok (Some (data_no_trigger, trigger))
      else splitTrigger_loop gdf trigger names'
  end.

(** [EEG.splitTrigger].  A property object cannot be iterated over
    ([TypeError]).  [drop_channels] works on the object [__gdf] itself,
    so the instance is returned with it. *)
Definition splitTrigger (self : EEG) (trigger : string)
  : result (option (Raw * list (list Qc)) * EEG) :=
  match getChannelNames self with
  | PropertyObject => Raise TypeError
  | Names names =>
      gdf ← attr (__gdf self);
      found ← splitTrigger_loop gdf trigger names;
      match found with
      | Some (data_no_trigger, trig) =>
          Ok (Some (data_no_trigger, trig),
              {| __gdf := Some data_no_trigger; __mat := __mat self;
                 __eeg := __eeg self; __trigger := __trigger self |})
      | None => Ok (None, self)
      end
  end.

(** What [pathlib.Path] exposes of a path. *)
Record PurePath : Type := {
  parent : string;
  stem : string;
  suffix : string
}.

Section Open.

(** The file system and the loaders are outside the program. *)
Variable Path : string -> PurePath.
Variable read_raw_gdf : string -> result Raw.
Variable rename_channels : Raw -> list (string * string) -> result Raw.
Variable EE385VMatFile_load : string -> result EE385VMatFile.

(** Truth value of the optional mapping [channel_names]. *)
Definition truthy (channel_names : option (list (string * string))) : bool :=
  match channel_names with
  | None | Some [] => false
  | Some (_ :: _) => true
  end.

(** The first part of [EEG.open]: the two file names, and the
    recording read and renamed. *)
Definition open_recording (filepath : string)
    (channel_names : option (list (string * string))) : result (Raw * string) :=
  let path := Path filepath in
  paths ←
    (if String.eqb (suffix path) ".gdf" then
       Ok (filepath, (parent path ++ "/" ++ stem path ++ ".mat")%string)
     else if String.eqb (suffix path) ".mat" then
       Ok ((parent path ++ "/" ++ stem path ++ ".gdf")%string, filepath)
     else Raise IOError);
  let '(gdf_path, mat_path) := paths in
  gdf ← read_raw_gdf gdf_path;
  gdf ← (if truthy channel_names
         then rename_channels gdf (default [] channel_names)
         else Ok gdf);
  Ok (gdf, mat_path).

(** [EEG.open].  Unpacking [None] into [self.__eeg, self.__trigger] is a
    [TypeError].  [__eeg] is the object [__gdf] (what [drop_channels]
    returned), so the scaling by [apply_function] shows in both. *)
Definition open (self : EEG) (filepath : string)
    (channel_names : option (list (string * string)))
  : result ((Raw * list (list Qc) * EE385VMatFile) * EEG) :=
  loaded ← open_recording filepath channel_names;
  let '(gdf, mat_path) := loaded in
  let self := {| __gdf := Some gdf; __mat := __mat self;
                 __eeg := __eeg self; __trigger := __trigger self |} in
  unpacked ← splitTrigger self "trigger";
  let '(found, self) := unpacked in
  match found with
  | None => Raise TypeError
  | Some (eeg, trig) =>
      let eeg := apply_function eeg (fun x => (x / of_Z 1000000)%Qc) in
      mat ← EE385VMatFile_load mat_path;
      Ok ((eeg, trig, mat),
          {| __gdf := Some eeg; __mat := Some mat;
             __eeg := Some eeg; __trigger := Some trig |})
  end.

End Open.

(** *** Times and samples *)

(** The default of the parameter [fs]. *)
Definition fs_default : Qc := of_Z 512.

(** [EEG.timeToSample] *)
Definition timeToSample (time : Qc) (fs : Qc) : Qc := (time * fs)%Qc.

(** [EEG.timeArrayToSampleArray] *)
Definition timeArrayToSampleArray (time : list Qc) (fs : Qc) : list Z :=
  map (fun t => astype_uint (timeToSample t fs)) time.

(** *** Trial extraction *)

(** A slice is channel x sample, a volume trial x channel x sample. *)
Abbreviation Slice := (list (list Qc)).
Abbreviation Volume := (list (list (list Qc))).

(** [e == error] for a label [e] that is not [np.NaN]. *)
Definition label_eq (e error : ErrorLabel) : bool :=
  match e, error with
  | LTrue, LTrue | LFalse, LFalse => true
  | _, _ => false
  end.

(** [e is not np.NaN] *)
Definition is_not_NaN (e : ErrorLabel) : bool :=
  match e with
  | NaN => false
  | _ => true
  end.

(** The local variables of [getEEGTrials] before its loop. *)
Record getEEGTrials_locals : Type := {
  gdf_use : option Raw;
  pretime_s : Qc;
  posttime_s : Qc;
  error_array : list ErrorLabel;
  time : list Z
}.

Definition getEEGTrials_prologue (self : EEG) (pretime posttime : Qc)
    (gdf : option Raw) : result getEEGTrials_locals :=
  let gdf_use := match gdf with None => __gdf self | Some g => Some g end in
  let pretime_s := (timeToSample pretime fs_default * of_Z (-1))%Qc in
  let posttime_s := timeToSample posttime fs_default in
  identified ← identifyErrors self;
  let '(error_array, time) := identified in
  let time := timeArrayToSampleArray time (of_Z 512) in
  Ok {| gdf_use := gdf_use; pretime_s := pretime_s; posttime_s := posttime_s;
        error_array := error_array; time := time |}.

(** [gdf_subset[y, :] += y*offset_value*1e-6] for every channel [y]. *)
Definition add_offsets (offset_value : Qc) (gdf_subset : Slice) : Slice :=
  imap (fun y row =>
          map (fun v => (v + of_nat y * offset_value * Q2Qc (1 # 1000000))%Qc) row)
       gdf_subset.

(** The window of the trial with onset sample [t]. *)
Definition window (L : getEEGTrials_locals) (g : Raw) (t : Z) : Slice :=
  let start := Py.int (of_Z t + pretime_s L)%Qc in
  let stop := Py.int (of_Z t + posttime_s L)%Qc in
  get_data g start stop.

(** [gdf_subset.shape[1] == (pretime_s*-1 + posttime_s)] *)
Definition full_window (L : getEEGTrials_locals) (gdf_subset : Slice) : bool :=
  Qc_eq_bool (of_nat (shape1 gdf_subset))
             (pretime_s L * of_Z (-1) + posttime_s L)%Qc.

(** The body of the loop of [getEEGTrials] at trial [x]; [gdf_array] is
    [None] until the first window is kept.  The windows kept all have the
    shape of the first, so [np.append] along axis 0 adds one trial. *)
Definition getEEGTrials_body (L : getEEGTrials_locals) (error : ErrorLabel)
    (offset : bool) (offset_value : Qc) (plot : bool)
    (gdf_array : option Volume) (x : nat) : result (option Volume) :=
  e ← getitem (error_array L) x;
  if is_not_NaN e then
    if label_eq e error then
      t ← getitem (time L) x;
      g ← attr (gdf_use L);
      let gdf_subset := window L g t in
      if full_window L gdf_subset then
        let gdf_subset :=
          if plot || offset then add_offsets offset_value gdf_subset
          else gdf_subset in
        match gdf_array with
        | None => Ok (Some [gdf_subset])
        | Some a => Ok (Some (a ++ [gdf_subset]))
        end
      else Ok gdf_array
    else Ok gdf_array
  else Ok gdf_array.

(** [a[i]] along the first axis, a negative [i] counting from the end. *)
Definition getitem_Z {A : Type} (a : list A) (i : Z) : result A :=
  let n := Z.of_nat (length a) in
  let j := if (i <? 0)%Z then (i + n)%Z else i in
  if (0 <=? j)%Z && (j <? n)%Z then getitem a (Z.to_nat j) else Raise IndexError.

(** [EEG.getEEGTrials]; [gdf = None] is the default [mne.io.Raw], which
    selects [__gdf].  Drawing the plot itself is not modelled, reading the
    trial to draw is. *)
Definition getEEGTrials (self : EEG) (pretime posttime : Qc) (error : ErrorLabel)
    (gdf : option Raw) (offset : bool) (offset_value : Qc) (plot : bool)
    (plot_trigger : Z) : result (option Volume) :=
  L ← getEEGTrials_prologue self pretime posttime gdf;
  gdf_array ← for_each (getEEGTrials_body L error offset offset_value plot)
                       (range (length (time L))) None;
  if plot then
    match gdf_array with
    | None => Raise TypeError
    | Some a => _ ← getitem_Z a plot_trigger; Ok gdf_array
    end
  else Ok gdf_array.

(** *** Volume statistics *)

(** ndarray objects by address. *)
Abbreviation Heap := (list (list (list (list Qc)))).

(** [np.mean(eeg_slice, axis=0)]: at every sample point the mean over
    the channels.  (Without channels NumPy yields NaN; here the quotient
    by zero is 0, and the statements about means assume a channel.) *)
Definition column (eeg_slice : Slice) (s : nat) : list Qc :=
  map (fun row => nth s row 0%Qc) eeg_slice.

Definition sum (l : list Qc) : Qc := foldr Qcplus 0%Qc l.

Definition mean (l : list Qc) : Qc := (sum l / of_nat (length l))%Qc.

Definition mean_axis0 (eeg_slice : Slice) : list Qc :=
  map (fun s => mean (column eeg_slice s)) (range (shape1 eeg_slice)).

(** [eeg_slice - global_avg], the vector broadcast over the channels. *)
Definition subtract (eeg_slice : Slice) (global_avg : list Qc) : Slice :=
  map (fun row => zip_with Qcminus row global_avg) eeg_slice.

(** [np.zeros(eegVolume.shape)] *)
Definition zeros_like (eegVolume : Volume) : Volume :=
  let channels := match eegVolume with [] => 0 | t :: _ => length t end in
  let samples := match eegVolume with [] => 0 | t :: _ => shape1 t end in
  replicate (length eegVolume) (replicate channels (replicate samples 0%Qc)).

(** One round of the loop of [CARFilter]: [eeg_slice] is a view of
    [eegVolume], so [eeg_slice -= global_avg] writes into [eegVolume];
    the slice is then copied into [filtered]. *)
Definition CARFilter_body (eegVolume filtered : nat) (h : Heap) (trigger : nat)
  : result Heap :=
  vol ← getitem h eegVolume;
  eeg_slice ← getitem vol trigger;
  let global_avg := mean_axis0 eeg_slice in
  let h := <[eegVolume := <[trigger := subtract eeg_slice global_avg]> vol]> h in
  vol ← getitem h eegVolume;
  eeg_slice ← getitem vol trigger;
  out ← getitem h filtered;
  Ok (<[filtered := <[trigger := eeg_slice]> out]> h).

(** [EEG.CARFilter] on the array at address [eegVolume]: returns the
    address of the new array [filtered] and the heap after the call. *)
Definition CARFilter (eegVolume : nat) (h : Heap) : result (nat * Heap) :=
  vol ← getitem h eegVolume;
  let filtered := length h in
  let h := h ++ [zeros_like vol] in
  h ← for_each (CARFilter_body eegVolume filtered) (range (length vol)) h;
  Ok (filtered, h).

(** The values one channel [c] holds at one sample [s] across the
    trials of a volume: the slice [eegVolume[:, c, s]]. *)
Definition across_trials (eegVolume : Volume) (c s : nat) : list Qc :=
  map (fun trial => nth s (nth c trial []) 0%Qc) eegVolume.

(** [eegVolume.shape[1]] and [eegVolume.shape[2]], read off the first
    trial. *)
Definition volume_channels (eegVolume : Volume) : nat :=
  match eegVolume with [] => 0 | t :: _ => length t end.

Definition volume_samples (eegVolume : Volume) : nat :=
  match eegVolume with [] => 0 | t :: _ => shape1 t end.

(** [np.var(l)]: the mean of the squared deviations from the mean. *)
Definition var (l : list Qc) : Qc :=
  mean (map (fun x => ((x - mean l) * (x - mean l))%Qc) l).

(** [EEG.grandAverage]: [np.mean(eegVolume, axis=0)].  (Of a volume
    without trials NumPy yields NaN at every entry; the statements about
    it assume a trial.) *)
Definition grandAverage (eegVolume : Volume) : Slice :=
  let grand_avg :=
    map (fun c =>
           map (fun s => mean (across_trials eegVolume c s))
               (range (volume_samples eegVolume)))
        (range (volume_channels eegVolume)) in
  grand_avg.

(** [EEG.grandVariance]: [np.var(eegVolume, axis=0)]. *)
Definition grandVariance (eegVolume : Volume) : Slice :=
  let grand_var :=
    map (fun c =>
           map (fun s => var (across_trials eegVolume c s))
               (range (volume_samples eegVolume)))
        (range (volume_channels eegVolume)) in
  grand_var.

(** One round of the loop of [addOffset] on a volume:
    [eegVolume[x, :] += value*x] writes into the array itself. *)
Definition addOffset_body (eegVolume : nat) (value : Qc) (h : Heap) (x : nat)
  : result Heap :=
  vol ← getitem h eegVolume;
  block ← getitem vol x;
  Ok (<[eegVolume :=
          <[x := map (map (fun v => (v + value * of_nat x)%Qc)) block]> vol]> h).

(** [EEG.addOffset] on the array at address [eegVolume]: returns the
    address it was given and the heap after the call. *)
Definition addOffset (eegVolume : nat) (value : Qc) (h : Heap)
  : result (nat * Heap) :=
  vol ← getitem h eegVolume;
  h ← for_each (addOffset_body eegVolume value) (range (length vol)) h;
  Ok (eegVolume, h).

Section Power.

(** [np.sqrt]: the square root leaves the rationals, so it is a
    parameter; the statements about [power] say what they use of it. *)
Variable sqrt : Qc -> Qc.

(** [EEG.power]: the square of every entry, then its square root. *)
Definition power (eegVolume : Volume) : Volume :=
  let pow := map (map (map (fun x => (x * x)%Qc))) eegVolume in
  let pow := map (map (map sqrt)) pow in
  pow.

End Power.

(** *** The common-average reference in binary64 *)

(** NumPy computes on IEEE 754 binary64 numbers.  [CARFilter] once more,
    with the kernel's binary64 numbers and their correctly rounded
    operations in place of the rationals, to see what rounding does to
    it. *)
Module binary64.

Import PrimFloat.

Abbreviation float := PrimFloat.float.
Abbreviation Slice := (list (list PrimFloat.float)).
Abbreviation Volume := (list (list (list PrimFloat.float))).
Abbreviation Heap := (list (list (list (list PrimFloat.float)))).

(** The binary64 number of a count (exact below 2^53). *)
Definition of_nat (n : nat) : float :=
  Nat.iter n (fun x => PrimFloat.add x PrimFloat.one) PrimFloat.zero.

Definition column (eeg_slice : Slice) (s : nat) : list float :=
  map (fun row => nth s row PrimFloat.nan) eeg_slice.

(** [np.add.reduce] over the channels: the first value, and the others
    added to it one after the other. *)
Definition sum (l : list float) : float :=
  match l with
  | [] => PrimFloat.zero
  | x :: l' => fold_left PrimFloat.add l' x
  end.

(** [np.mean]: the sum divided by the count. *)
Definition mean (l : list float) : float :=
  PrimFloat.div (sum l) (of_nat (length l)).

Definition mean_axis0 (eeg_slice : Slice) : list float :=
  map (fun s => mean (column eeg_slice s)) (range (shape1 eeg_slice)).

Definition subtract (eeg_slice : Slice) (global_avg : list float) : Slice :=
  map (fun row => zip_with PrimFloat.sub row global_avg) eeg_slice.

Definition zeros_like (eegVolume : Volume) : Volume :=
  let channels := match eegVolume with [] => 0 | t :: _ => length t end in
  let samples := match eegVolume with [] => 0 | t :: _ => shape1 t end in
  replicate (length eegVolume)
    (replicate channels (replicate samples PrimFloat.zero)).

Definition CARFilter_body (eegVolume filtered : nat) (h : Heap) (trigger : nat)
  : result Heap :=
  vol ← getitem h eegVolume;
  eeg_slice ← getitem vol trigger;
  let global_avg := mean_axis0 eeg_slice in
  let h := <[eegVolume := <[trigger := subtract eeg_slice global_avg]> vol]> h in
  vol ← getitem h eegVolume;
  eeg_slice ← getitem vol trigger;
  out ← getitem h filtered;
  Ok (<[filtered := <[trigger := eeg_slice]> out]> h).

Definition CARFilter (eegVolume : nat) (h : Heap) : result (nat * Heap) :=
  vol ← getitem h eegVolume;
  let filtered := length h in
  let h := h ++ [zeros_like vol] in
  h ← for_each (CARFilter_body eegVolume filtered) (range (length vol)) h;
  Ok (filtered, h).

(** One trial with two channels and one sample point: the binary64
    numbers nearest to 0.1 and 0.3.  With two channels the sum is a
    single addition, so the order of summation plays no part. *)
Definition volume : Volume :=
  [[[0x1.999999999999ap-4%float]; [0x1.3333333333333p-2%float]]].

(** What one pass makes of it, -0.1 and 0.09999999999999998 ... *)
Definition once : Volume :=
  [[[(-0x1.999999999999ap-4)%float]; [0x1.9999999999998p-4%float]]].

(** ... and a second pass, -0.09999999999999999 and
    0.09999999999999999. *)
Definition twice : Volume :=
  [[[(-0x1.9999999999999p-4)%float]; [0x1.9999999999999p-4%float]]].

(** -2^-56, about -1.4e-17 *)
Definition residue : float := (-0x1p-56)%float.

End binary64.

(** ** Reading [getEEGTrials] trial by trial *)

(** Trial [x] is kept by the loop of [getEEGTrials]: its label is not
    [np.NaN], equals [error], and its window has the full length. *)
Definition kept (L : getEEGTrials_locals) (g : Raw) (error : ErrorLabel)
    (x : nat) : bool :=
  match error_array L !! x, time L !! x with
  | Some e, Some t =>
      is_not_NaN e && label_eq e error && full_window L (window L g t)
  | _, _ => false
  end.

(** The data stored for a kept trial [x]. *)
Definition trial_of (L : getEEGTrials_locals) (g : Raw) (offset : bool)
    (offset_value : Qc) (plot : bool) (x : nat) : Slice :=
  let gdf_subset := window L g (default 0%Z (time L !! x)) in
  if plot || offset then add_offsets offset_value gdf_subset else gdf_subset.

(** [gdf_array] after the trials [ws] were appended to it in turn. *)
Definition stack (gdf_array : option Volume) (ws : list Slice) : option Volume :=
  match ws with
  | [] => gdf_array
  | _ :: _ => Some (default [] gdf_array ++ ws)
  end.

(** ** Shapes and example data *)

(** Every trial of a volume has [C] channels of [S] samples. *)
Definition well_shaped (v : Volume) (C S : nat) : Prop :=
  Forall (fun trial : Slice => length trial = C /\
                               Forall (fun row => length row = S) trial) v.

(** A trial has one row per channel of [g] and [W] samples in each. *)
Definition trial_shape (g : Raw) (W : Qc) (trial : Slice) : Prop :=
  length trial = length (_data g) /\
  Forall (fun row => of_nat (length row) = W) trial.

(** What [CARFilter] makes of one trial: the slice minus its mean over
    the channels. *)
Definition car (eeg_slice : Slice) : Slice :=
  subtract eeg_slice (mean_axis0 eeg_slice).

(** A recording of two channels and 2048 samples with five annotations,
    and a behaviour log of three actions. *)
Module Example.

Definition q (a : Z) (b : positive) : Qc := Q2Qc (a # b).

Definition recording : Raw :=
  {| sfreq := of_Z 512;
     ch_names := ["eeg:1"; "eeg:2"]%string;
     _data := [map of_nat (seq 0 2048); map of_nat (seq 5 2048)];
     annotations :=
       {| onset := [q 0 1; q 1 1; q 2 1; q 7 2; q 4 1];
          description := ["start"; "a"; "b"; "c"; "stop"]%string |} |}.

Definition mat : EE385VMatFile :=
  {| actions := [4; 5; 6]%Z;
     states := [[9; 1; 2; 1; 7]; [9; 1; 1; 1; 7]]%Z |}.

Definition self : EEG :=
  {| __gdf := Some recording; __mat := Some mat;
     __eeg := Some recording; __trigger := None |}.

(** The same recording sampled at 256 Hz. *)
Definition recording256 : Raw :=
  {| sfreq := of_Z 256;
     ch_names := ch_names recording;
     _data := _data recording;
     annotations := annotations recording |}.

Definition self256 : EEG :=
  {| __gdf := Some recording256; __mat := Some mat;
     __eeg := Some recording256; __trigger := None |}.

(** The locals of [getEEGTrials] on the example instance, for half a
    second before and one second after each onset. *)
Definition no_locals : getEEGTrials_locals :=
  {| gdf_use := None; pretime_s := 0%Qc; posttime_s := 0%Qc;
     error_array := []; time := [] |}.

Definition locals : getEEGTrials_locals :=
  match getEEGTrials_prologue self (q 1 2) (of_Z 1) None with
  | Ok L => L
  | Raise _ => no_locals
  end.

(** The same on the recording sampled at 256 Hz, for one second before
    and one second after each onset. *)
Definition locals256 : getEEGTrials_locals :=
  match getEEGTrials_prologue self256 (of_Z 1) (of_Z 1) None with
  | Ok L => L
  | Raise _ => no_locals
  end.

(** A file system with the one recording, under any name. *)
Definition Path (filepath : string) : PurePath :=
  {| parent := "data"; stem := "subject1"; suffix := ".gdf" |}.
Definition read_raw_gdf (gdf_path : string) : result Raw := Ok recording.
Definition rename_channels (raw : Raw) (mapping : list (string * string))
  : result Raw := Ok raw.
Definition EE385VMatFile_load (mat_path : string) : result EE385VMatFile :=
  Ok mat.

(** One trial of two channels and one sample. *)
Definition volume : Volume := [[[q 1 1]; [q 3 1]]].

End Example.

(** More example data: a recording with a trigger channel between two
    EEG channels, and file systems around it. *)
Module Cases.

Definition triggered : Raw :=
  {| sfreq := of_Z 512;
     ch_names := ["eeg:1"; "trigger:1"; "eeg:2"]%string;
     _data := [[of_Z 1000000; of_Z 2000000]; [of_Z 7; of_Z 7];
               [of_Z 3000000; of_Z 4000000]];
     annotations := annotations Example.recording |}.

Definition self : EEG :=
  {| __gdf := Some triggered; __mat := Some Example.mat;
     __eeg := None; __trigger := None |}.

(** A recording whose only channel is the trigger. *)
Definition trigger_only : Raw :=
  {| sfreq := of_Z 512;
     ch_names := ["trigger:1"]%string;
     _data := [[of_Z 7; of_Z 7]];
     annotations := annotations Example.recording |}.

Definition self_trigger_only : EEG :=
  {| __gdf := Some trigger_only; __mat := Some Example.mat;
     __eeg := None; __trigger := None |}.

Definition read_trigger_only (gdf_path : string) : result Raw :=
  Ok trigger_only.

Definition Path_mat (filepath : string) : PurePath :=
  {| parent := "data"; stem := "subject1"; suffix := ".mat" |}.

Definition Path_txt (filepath : string) : PurePath :=
  {| parent := "data"; stem := "notes"; suffix := ".txt" |}.

Definition read_raw_gdf (gdf_path : string) : result Raw := Ok triggered.

(** A behaviour log with a single action: fewer labels than onsets. *)
Definition mat_short : EE385VMatFile :=
  {| actions := [4]%Z; states := states Example.mat |}.

Definition self_short : EEG :=
  {| __gdf := Some Example.recording; __mat := Some mat_short;
     __eeg := None; __trigger := None |}.

Definition locals_short : getEEGTrials_locals :=
  match getEEGTrials_prologue self_short (Example.q 1 2) (of_Z 1) None with
  | Ok L => L
  | Raise _ => Example.no_locals
  end.

(** What the example instance returns for the no-error trials when the
    plot is asked for. *)
Definition plotted : option Volume :=
  match getEEGTrials Example.self (Example.q 1 2) (of_Z 1) LFalse None false
          (of_Z 30) true 0 with
  | Ok out => out
  | Raise _ => None
  end.

(** The data of the example recording under another rate, other names
    and no annotations. *)
Definition reannotated : Raw :=
  {| sfreq := of_Z 100;
     ch_names := ["a"; "b"]%string;
     _data := _data Example.recording;
     annotations := {| onset := []; description := [] |} |}.

(** The example recording with its two boundary annotations only. *)
Definition bare : Raw :=
  {| sfreq := of_Z 512;
     ch_names := ch_names Example.recording;
     _data := _data Example.recording;
     annotations :=
       {| onset := [Example.q 0 1; Example.q 4 1];
          description := ["start"; "stop"]%string |} |}.

Definition self_bare : EEG :=
  {| __gdf := Some bare; __mat := Some Example.mat;
     __eeg := None; __trigger := None |}.

(** Two trials of two channels and two samples, a signal to add to
    every channel, and a trial of one channel. *)
Definition trial1 : Slice := [[of_Z 1; of_Z 2]; [of_Z 3; of_Z 6]].
Definition trial2 : Slice := [[of_Z 0; of_Z 4]; [of_Z 2; of_Z 2]].
Definition volume2 : Volume := [trial1; trial2].
Definition signal : list Qc := [of_Z 10; of_Z 20].
Definition volume1 : Volume := [[[of_Z 5; of_Z 7]]].

(** A square root on the rationals that are squares: the roots of the
    numerator and of the denominator. *)
Definition sqrt (x : Qc) : Qc := Q2Qc (Z.sqrt (Qnum x) # Pos.sqrt (Qden x)).

End Cases.

(** * Properties *)

(** ** Slices *)

Section Slices.

Context {A : Type}.
Implicit Types l : list A.

Lemma slice_from_1 l : slice (Some 1%Z) None l = drop 1 l.
Proof.
  unfold slice; cbn [from_option].
  destruct l as [|a l]; [reflexivity|].
  assert (E : norm (length (a :: l)) 1 = 1).
  { unfold norm. cbn [length]. destruct (1 <? 0)%Z eqn:Hlt; lia. }
  rewrite E. cbn [drop length]. rewrite Nat.sub_succ, Nat.sub_0_r.
  apply firstn_all.
Qed.

Lemma slice_to_last l : slice None (Some (-1)%Z) l = take (length l - 1) l.
Proof.
  unfold slice; cbn [from_option]. rewrite drop_0, Nat.sub_0_r.
  f_equal. unfold norm. destruct (-1 <? 0)%Z eqn:Hlt; lia.
Qed.

Lemma slice_to_nat (n : nat) l :
  slice None (Some (Z.of_nat n)) l = take n l.
Proof.
  unfold slice; cbn [from_option]. rewrite drop_0, Nat.sub_0_r.
  unfold norm. destruct (Z.ltb_spec (Z.of_nat n) 0) as [Hlt|_]; [lia|].
  destruct (Nat.le_gt_cases n (length l)) as [Hle|Hgt].
  - f_equal. lia.
  - replace (Z.to_nat (Z.min (Z.of_nat n) (Z.of_nat (length l)))) with (length l) by lia.
    rewrite firstn_all. symmetry. apply take_ge. lia.
Qed.

(** [l[1:][:-1]] drops the first and the last entry. *)
Lemma slice_trim (a b : A) l :
  slice None (Some (-1)%Z) (slice (Some 1%Z) None (a :: l ++ [b])) = l.
Proof.
  rewrite slice_from_1, slice_to_last. cbn [drop]. rewrite ?drop_0.
  rewrite length_app. cbn [length].
  replace (length l + 1 - 1) with (length l) by lia.
  apply take_app_length.
Qed.

End Slices.

(** ** identifyErrors *)

(** The label the loop of [identifyErrors] gives to a column with codes
    [s0] (intended) and [s1] (actual). *)
Lemma identifyErrors_label_at (states : list (list Z)) (r0 r1 : list Z)
    (rest : list (list Z)) (x : nat) (s0 s1 : Z) :
  states = r0 :: r1 :: rest -> r0 !! x = Some s0 -> r1 !! x = Some s1 ->
  identifyErrors_label states x =
    Ok (if (s0 <? 0)%Z then NaN else if negb (s0 =? s1)%Z then LTrue else LFalse).
Proof.
  intros -> H0 H1. unfold identifyErrors_label, at2, getitem. cbn.
  rewrite H0. cbn. destruct (s0 <? 0)%Z; [reflexivity|].
  rewrite H1. cbn. destruct (negb (s0 =? s1)%Z); reflexivity.
Qed.

Lemma identifyErrors_loop (states : list (list Z)) (r0 r1 : list Z)
    (rest : list (list Z)) :
  states = r0 :: r1 :: rest -> length r1 = length r0 ->
  forall (m k : nat) (acc : list ErrorLabel),
    k + m = length r0 ->
    for_each
      (fun error x => l ← identifyErrors_label states x; Ok (error ++ [l]))
      (seq k m) acc =
    Ok (acc ++ zip_with
                 (fun s0 s1 => if (s0 <? 0)%Z then NaN
                               else if negb (s0 =? s1)%Z then LTrue else LFalse)
                 (drop k r0) (drop k r1)).
Proof.
  intros Hst Hlen m. induction m as [|m IH]; intros k acc Hk.
  - cbn. rewrite (drop_ge r0) by lia. cbn. now rewrite app_nil_r.
  - cbn [seq for_each].
    destruct (lookup_lt_is_Some_2 r0 k) as [s0 H0]; [lia|].
    destruct (lookup_lt_is_Some_2 r1 k) as [s1 H1]; [lia|].
    rewrite (identifyErrors_label_at _ _ _ _ _ _ _ Hst H0 H1). cbn.
    rewrite IH by lia.
    rewrite (drop_S r0 s0 k H0), (drop_S r1 s1 k H1). cbn [zip_with].
    now rewrite <- app_assoc.
Qed.

(** The result of [identifyErrors] on an opened instance whose truncated
    state matrix has the rows [r0] and [r1]. *)
Lemma identifyErrors_result (self : EEG) (gdf : Raw) (mat : EE385VMatFile)
    (r0 r1 : list Z) (rest : list (list Z)) :
  __gdf self = Some gdf -> __mat self = Some mat ->
  states_ (identifyErrors_prologue gdf mat) = r0 :: r1 :: rest ->
  length r1 = length r0 ->
  identifyErrors self =
    Ok (zip_with
          (fun s0 s1 => if (s0 <? 0)%Z then NaN
                        else if negb (s0 =? s1)%Z then LTrue else LFalse) r0 r1,
        annotation_time (identifyErrors_prologue gdf mat)).
Proof.
  intros Hg Hm Hst Hlen. unfold identifyErrors. rewrite Hg, Hm.
  cbn [attr mbind result_bind]. unfold range. rewrite Hst. cbn [shape1].
  rewrite (identifyErrors_loop _ r0 r1 rest eq_refl Hlen (length r0) 0 []) by lia.
  reflexivity.
Qed.

(** C1.  On an opened instance, for every trial column [x] of the
    truncated state matrix, with intended code [s0] (row 0) and actual
    code [s1] (row 1): [identifyErrors] returns one label per column, the
    label of [x] is [np.NaN] (Undefined) if and only if [s0 < 0], and
    otherwise it is [True] if and only if [s0 <> s1] and [False] if and
    only if [s0 = s1]. *)
Theorem identifyErrors_label_rule (self : EEG) (gdf : Raw) (mat : EE385VMatFile)
    (r0 r1 : list Z) (rest : list (list Z)) :
  __gdf self = Some gdf -> __mat self = Some mat ->
  states_ (identifyErrors_prologue gdf mat) = r0 :: r1 :: rest ->
  length r1 = length r0 ->
  exists error : list ErrorLabel,
    identifyErrors self = Ok (error, annotation_time (identifyErrors_prologue gdf mat)) /\
    length error = length r0 /\
    forall (x : nat) (s0 s1 : Z),
      r0 !! x = Some s0 -> r1 !! x = Some s1 ->
      exists l : ErrorLabel,
        error !! x = Some l /\
        (l = LTrue \/ l = LFalse \/ l = NaN) /\
        (l = NaN <-> (s0 < 0)%Z) /\
        ((0 <= s0)%Z -> (l = LTrue <-> s0 <> s1) /\ (l = LFalse <-> s0 = s1)).
Proof.
  intros Hg Hm Hst Hlen. eexists. split; [|split].
  - apply (identifyErrors_result _ _ _ _ _ _ Hg Hm Hst Hlen).
  - rewrite length_zip_with. lia.
  - intros x s0 s1 H0 H1. eexists. split.
    + rewrite lookup_zip_with, H0. cbn. rewrite H1. reflexivity.
    + destruct (Z.ltb_spec s0 0) as [Hneg|Hpos].
      * repeat split; try tauto; try lia; intros; try discriminate.
      * destruct (Z.eqb_spec s0 s1) as [Heq|Hne]; cbn;
          repeat split; try tauto; try lia; intros; try discriminate;
          try congruence.
Qed.

(** C2.  On an opened instance whose annotations have a first entry, a
    last entry and the entries [times] (onsets) and [descs]
    (descriptions) between them, [identifyErrors] trims exactly the first
    and the last entry of both sequences, drops the first column of the
    state matrix and keeps the first [N] of the remaining columns, [N]
    being the number of actions; it returns the trimmed onsets. *)
Theorem identifyErrors_alignment (self : EEG) (gdf : Raw) (mat : EE385VMatFile)
    (t0 tn : Qc) (times : list Qc) (d0 dn : string) (descs : list string)
    (m0 m1 : list Z) (rest : list (list Z)) :
  __gdf self = Some gdf -> __mat self = Some mat ->
  onset (annotations gdf) = t0 :: times ++ [tn] ->
  description (annotations gdf) = d0 :: descs ++ [dn] ->
  states mat = m0 :: m1 :: rest -> length m1 = length m0 ->
  let L := identifyErrors_prologue gdf mat in
  let N := length (actions mat) in
  annotation_time L = times /\
  annotation_desc L = descs /\
  states_ L = map (fun row => take N (drop 1 row)) (states mat) /\
  exists error : list ErrorLabel,
    identifyErrors self = Ok (error, times) /\
    length error = Nat.min (length m0 - 1) N.
Proof.
  intros Hg Hm Hon Hde Hst Hlen L N.
  assert (Ht : annotation_time L = times).
  { unfold L, identifyErrors_prologue; cbn [annotation_time].
    rewrite Hon. apply slice_trim. }
  assert (Hd : annotation_desc L = descs).
  { unfold L, identifyErrors_prologue; cbn [annotation_desc].
    rewrite Hde. apply slice_trim. }
  assert (Hs : states_ L = map (fun row => take N (drop 1 row)) (states mat)).
  { unfold L, identifyErrors_prologue, cols; cbn [states_ intention].
    rewrite map_map. apply map_ext. intros row.
    now rewrite slice_from_1, slice_to_nat. }
  repeat split; try assumption.
  eexists. split.
  - rewrite <- Ht. apply (identifyErrors_result self gdf mat
      (take N (drop 1 m0)) (take N (drop 1 m1))
      (map (fun row => take N (drop 1 row)) rest) Hg Hm).
    + fold L. rewrite Hs, Hst. reflexivity.
    + rewrite !length_take, !length_drop. lia.
  - rewrite length_zip_with, !length_take, !length_drop. lia.
Qed.

Lemma identifyErrors_label_rule_witness :
  exists error : list ErrorLabel,
    identifyErrors Example.self =
      Ok (error, annotation_time (identifyErrors_prologue Example.recording Example.mat)) /\
    length error = 3 /\
    forall (x : nat) (s0 s1 : Z),
      [1; 2; 1]%Z !! x = Some s0 -> [1; 1; 1]%Z !! x = Some s1 ->
      exists l : ErrorLabel,
        error !! x = Some l /\
        (l = LTrue \/ l = LFalse \/ l = NaN) /\
        (l = NaN <-> (s0 < 0)%Z) /\
        ((0 <= s0)%Z -> (l = LTrue <-> s0 <> s1) /\ (l = LFalse <-> s0 = s1)).
Proof.
  apply (identifyErrors_label_rule Example.self Example.recording Example.mat
           [1; 2; 1]%Z [1; 1; 1]%Z []); reflexivity.
Defined.

Lemma identifyErrors_alignment_witness :
  annotation_time (identifyErrors_prologue Example.recording Example.mat) =
    [Example.q 1 1; Example.q 2 1; Example.q 7 2] /\
  annotation_desc (identifyErrors_prologue Example.recording Example.mat) =
    ["a"; "b"; "c"]%string /\
  states_ (identifyErrors_prologue Example.recording Example.mat) =
    map (fun row => take 3 (drop 1 row)) (states Example.mat) /\
  exists error : list ErrorLabel,
    identifyErrors Example.self =
      Ok (error, [Example.q 1 1; Example.q 2 1; Example.q 7 2]) /\
    length error = Nat.min (5 - 1) 3.
Proof.
  apply (identifyErrors_alignment Example.self Example.recording Example.mat
           (Example.q 0 1) (Example.q 4 1)
           [Example.q 1 1; Example.q 2 1; Example.q 7 2]
           "start"%string "stop"%string ["a"; "b"; "c"]%string
           [9; 1; 2; 1; 7]%Z [9; 1; 1; 1; 7]%Z []); reflexivity.
Defined.

(** ** Loops *)

Section ForEach.

Context {A S : Type} (body : S -> A -> result S).

(** A property of the loop state that every round keeps holds after the
    loop, whenever the loop ends normally. *)
Lemma for_each_invariant (P : S -> Prop) :
  (forall s a s', P s -> body s a = Ok s' -> P s') ->
  forall l s s', P s -> for_each body l s = Ok s' -> P s'.
Proof.
  intros Hstep l. induction l as [|a l IH]; intros s s' Hs Hrun.
  - cbn in Hrun. congruence.
  - cbn in Hrun. destruct (body s a) as [s1|e] eqn:Hb; [|discriminate].
    cbn in Hrun. eauto.
Qed.

End ForEach.

(** ** getEEGTrials *)

Section Trials.

Variables (L : getEEGTrials_locals) (g : Raw) (error : ErrorLabel).
Variables (offset : bool) (offset_value : Qc) (plot : bool).
Hypothesis Huse : gdf_use L = Some g.

(** One round of the loop, for a trial with a label and an onset. *)
Lemma getEEGTrials_body_step (gdf_array : option Volume) (x : nat) :
  x < length (error_array L) -> x < length (time L) ->
  getEEGTrials_body L error offset offset_value plot gdf_array x =
    Ok (if kept L g error x
        then Some (default [] gdf_array ++
                   [trial_of L g offset offset_value plot x])
        else gdf_array).
Proof.
  intros He Ht.
  destruct (lookup_lt_is_Some_2 _ _ He) as [e Hle].
  destruct (lookup_lt_is_Some_2 _ _ Ht) as [t Hlt].
  unfold getEEGTrials_body, trial_of, kept, getitem.
  rewrite Hle, Hlt, Huse. cbn.
  destruct (is_not_NaN e); cbn; [|reflexivity].
  destruct (label_eq e error); cbn; [|reflexivity].
  destruct (full_window L (window L g t)); cbn; [|reflexivity].
  destruct gdf_array; reflexivity.
Qed.

Lemma stack_snoc (gdf_array : option Volume) (w : Slice) (ws : list Slice) :
  stack (Some (default [] gdf_array ++ [w])) ws = stack gdf_array (w :: ws).
Proof.
  destruct ws; cbn; [reflexivity|]. now rewrite <- app_assoc.
Qed.

(** The loop over the trials [k, k+m). *)
Lemma getEEGTrials_loop (m k : nat) (gdf_array : option Volume) :
  k + m <= length (error_array L) -> k + m <= length (time L) ->
  for_each (getEEGTrials_body L error offset offset_value plot) (seq k m)
    gdf_array =
    Ok (stack gdf_array
          (map (trial_of L g offset offset_value plot)
               (List.filter (kept L g error) (seq k m)))).
Proof.
  revert k gdf_array. induction m as [|m IH]; intros k gdf_array He Ht.
  - reflexivity.
  - cbn [seq for_each List.filter].
    rewrite getEEGTrials_body_step by lia. cbn.
    rewrite IH by lia.
    destruct (kept L g error k); [|reflexivity].
    cbn [map]. now rewrite stack_snoc.
Qed.

End Trials.

(** [getEEGTrials] in full, once the prologue has run and every onset
    has a label. *)
Lemma getEEGTrials_spec (self : EEG) (pretime posttime : Qc) (error : ErrorLabel)
    (gdf : option Raw) (offset : bool) (offset_value : Qc) (plot : bool)
    (plot_trigger : Z) (L : getEEGTrials_locals) (g : Raw) :
  getEEGTrials_prologue self pretime posttime gdf = Ok L ->
  gdf_use L = Some g ->
  length (time L) <= length (error_array L) ->
  getEEGTrials self pretime posttime error gdf offset offset_value plot plot_trigger =
    let gdf_array :=
      stack None (map (trial_of L g offset offset_value plot)
                      (List.filter (kept L g error) (range (length (time L))))) in
    if plot then
      match gdf_array with
      | None => Raise TypeError
      | Some a => _ ← getitem_Z a plot_trigger; Ok gdf_array
      end
    else Ok gdf_array.
Proof.
  intros HL Huse Hlen. unfold getEEGTrials. rewrite HL.
  cbn [mbind result_bind]. unfold range.
  rewrite (getEEGTrials_loop L g error offset offset_value plot Huse) by lia.
  reflexivity.
Qed.

(** What the prologue of [getEEGTrials] binds. *)
Lemma getEEGTrials_prologue_inv (self : EEG) (pretime posttime : Qc)
    (gdf : option Raw) (L : getEEGTrials_locals) :
  getEEGTrials_prologue self pretime posttime gdf = Ok L ->
  exists (labels : list ErrorLabel) (times : list Qc),
    identifyErrors self = Ok (labels, times) /\
    gdf_use L = match gdf with None => __gdf self | Some g => Some g end /\
    pretime_s L = (timeToSample pretime fs_default * of_Z (-1))%Qc /\
    posttime_s L = timeToSample posttime fs_default /\
    error_array L = labels /\
    time L = timeArrayToSampleArray times (of_Z 512).
Proof.
  unfold getEEGTrials_prologue.
  destruct (identifyErrors self) as [[labels times]|e]; cbn; [|discriminate].
  intros [= <-]. exists labels, times. cbn. repeat split.
Qed.

(** ** Shapes of windows *)

Lemma length_slice_eq {A : Type} (start stop : option Z) (l l' : list A) :
  length l = length l' -> length (slice start stop l) = length (slice start stop l').
Proof.
  intros H. unfold slice. now rewrite !length_take, !length_drop, H.
Qed.

Lemma get_data_channels (g : Raw) (start stop : Z) :
  length (get_data g start stop) = length (_data g).
Proof. unfold get_data, cols. apply length_map. Qed.

Lemma get_data_rectangular (g : Raw) (start stop : Z) :
  rectangular (_data g) -> rectangular (get_data g start stop).
Proof.
  unfold rectangular, get_data, cols. intros H.
  destruct (_data g) as [|r rows] eqn:E; [constructor|].
  rewrite List.Forall_forall in H. apply List.Forall_forall. intros row' Hin.
  apply in_map_iff in Hin. destruct Hin as (r' & <- & Hr').
  cbn [map shape1]. apply length_slice_eq. now apply H.
Qed.

Lemma add_offsets_length (offset_value : Qc) (s : Slice) :
  length (add_offsets offset_value s) = length s.
Proof. unfold add_offsets. apply length_imap. Qed.

Lemma of_nat_inj (a b : nat) : of_nat a = of_nat b -> a = b.
Proof.
  unfold of_nat, of_Z. intros H.
  apply Q2Qc_eq_iff in H. rewrite inject_Z_injective in H. lia.
Qed.

(** The number of samples the length check of [getEEGTrials] asks for. *)
Lemma window_samples (L : getEEGTrials_locals) (pretime posttime : Qc) :
  pretime_s L = (timeToSample pretime fs_default * of_Z (-1))%Qc ->
  posttime_s L = timeToSample posttime fs_default ->
  (pretime_s L * of_Z (-1) + posttime_s L =
   pretime * of_Z 512 + posttime * of_Z 512)%Qc.
Proof.
  intros -> ->. unfold timeToSample, fs_default.
  change (of_Z (-1)) with (- (1))%Qc. ring.
Qed.

(** One round of the loop either leaves [gdf_array] as it is or appends
    a window of the full length. *)
Lemma getEEGTrials_body_inv (L : getEEGTrials_locals) (error : ErrorLabel)
    (offset : bool) (offset_value : Qc) (plot : bool)
    (gdf_array gdf_array' : option Volume) (x : nat) :
  getEEGTrials_body L error offset offset_value plot gdf_array x = Ok gdf_array' ->
  gdf_array' = gdf_array \/
  exists (g : Raw) (t : Z),
    gdf_use L = Some g /\ time L !! x = Some t /\
    full_window L (window L g t) = true /\
    gdf_array' =
      Some (default [] gdf_array ++
            [if plot || offset then add_offsets offset_value (window L g t)
             else window L g t]).
Proof.
  unfold getEEGTrials_body, getitem, attr.
  destruct (error_array L !! x) as [e|]; cbn; [|discriminate].
  destruct (is_not_NaN e); [|intros [= <-]; now left].
  destruct (label_eq e error); [|intros [= <-]; now left].
  destruct (time L !! x) as [t|]; cbn; [|discriminate].
  destruct (gdf_use L) as [g|]; cbn; [|discriminate].
  destruct (full_window L (window L g t)) eqn:Hfull; [|intros [= <-]; now left].
  intros H. right. exists g, t. repeat split; try assumption.
  destruct gdf_array; injection H as <-; reflexivity.
Qed.

(** A window that passes the length check has the shape of a trial. *)
Lemma window_shape (L : getEEGTrials_locals) (g : Raw) (t : Z) :
  rectangular (_data g) ->
  full_window L (window L g t) = true ->
  trial_shape g (pretime_s L * of_Z (-1) + posttime_s L)%Qc (window L g t).
Proof.
  intros Hrect Hfull. unfold full_window in Hfull.
  apply Qc_eq_bool_correct in Hfull. split.
  - apply get_data_channels.
  - rewrite <- Hfull. eapply Forall_impl.
    + apply (get_data_rectangular g _ _ Hrect).
    + intros row Hrow. cbn in Hrow. unfold window. now rewrite Hrow.
Qed.

Lemma add_offsets_shape (g : Raw) (W : Qc) (offset_value : Qc) (s : Slice) :
  trial_shape g W s -> trial_shape g W (add_offsets offset_value s).
Proof.
  intros [Hc Hr]. split.
  - now rewrite add_offsets_length.
  - apply Forall_forall. intros row Hin.
    apply list_elem_of_lookup in Hin. destruct Hin as [y Hy].
    unfold add_offsets in Hy. rewrite list_lookup_imap in Hy.
    apply fmap_Some in Hy. destruct Hy as (row0 & E & ->). rewrite length_map.
    rewrite Forall_forall in Hr. apply Hr. apply list_elem_of_lookup. eauto.
Qed.

(** C3.  Every trial of the volume that [getEEGTrials] returns has one
    row per channel of the recording it read and [pretime*512 +
    posttime*512] samples in every row; for [pretime = 0.5] and
    [posttime = 1] that is 768 samples. *)
Theorem getEEGTrials_trial_shape (self : EEG) (pretime posttime : Qc)
    (error : ErrorLabel) (gdf : option Raw) (offset : bool) (offset_value : Qc)
    (plot : bool) (plot_trigger : Z) (g : Raw) (vol : Volume) :
  match gdf with None => __gdf self | Some g' => Some g' end = Some g ->
  rectangular (_data g) ->
  getEEGTrials self pretime posttime error gdf offset offset_value plot plot_trigger
    = Ok (Some vol) ->
  forall trial : Slice, In trial vol ->
    length trial = length (_data g) /\
    forall row : list Qc, In row trial ->
      of_nat (length row) = (pretime * of_Z 512 + posttime * of_Z 512)%Qc /\
      (pretime = Q2Qc (1 # 2) -> posttime = 1%Qc -> length row = 768).
Proof.
  intros Hg Hrect Hrun.
  unfold getEEGTrials in Hrun.
  destruct (getEEGTrials_prologue self pretime posttime gdf) as [L|e] eqn:HL;
    [|discriminate].
  destruct (getEEGTrials_prologue_inv _ _ _ _ _ HL)
    as (labels & times & _ & Huse & Hpre & Hpost & _ & _).
  rewrite Hg in Huse.
  cbn [mbind result_bind] in Hrun.
  destruct (for_each _ _ None) as [gdf_array|e] eqn:Hloop; [|discriminate].
  cbn [mbind result_bind] in Hrun.
  assert (Hvol : gdf_array = Some vol).
  { destruct plot; [|congruence].
    destruct gdf_array as [a|]; [|discriminate].
    destruct (getitem_Z a plot_trigger); cbn in Hrun; congruence. }
  subst gdf_array. clear Hrun.
  set (W := (pretime_s L * of_Z (-1) + posttime_s L)%Qc).
  assert (Hall : Forall (trial_shape g W) vol).
  { refine (for_each_invariant _
              (fun acc => forall v, acc = Some v -> Forall (trial_shape g W) v)
              _ _ _ _ _ Hloop vol eq_refl); [|discriminate].
    intros s x s' Hs Hb v ->.
    apply getEEGTrials_body_inv in Hb.
    destruct Hb as [Heq|(g' & t & Hg' & _ & Hfull & Hv)];
      [apply Hs; congruence|].
    rewrite Huse in Hg'. injection Hg' as <-. injection Hv as ->.
    apply Forall_app. split.
    - destruct s as [a|]; [now apply Hs|constructor].
    - constructor; [|constructor].
      pose proof (window_shape L g t Hrect Hfull) as Hw.
      destruct (plot || offset); [now apply add_offsets_shape|exact Hw]. }
  intros trial Hin. rewrite List.Forall_forall in Hall.
  destruct (Hall trial Hin) as [Hc Hr]. split; [exact Hc|].
  intros row Hrow. rewrite List.Forall_forall in Hr. specialize (Hr row Hrow).
  unfold W in Hr. rewrite (window_samples L pretime posttime Hpre Hpost) in Hr.
  split; [exact Hr|]. intros -> ->. apply of_nat_inj. rewrite Hr.
  apply Qc_is_canon. reflexivity.
Qed.

(** ** Which trials are kept *)

Lemma filter_sublist {A : Type} (f : A -> bool) (l : list A) :
  sublist (List.filter f l) l.
Proof.
  induction l as [|a l IH]; cbn; [constructor|].
  destruct (f a); now constructor.
Qed.

Lemma stack_None (ws : list Slice) : default [] (stack None ws) = ws.
Proof. destruct ws; reflexivity. Qed.

Lemma label_eq_true (e error : ErrorLabel) :
  is_not_NaN e && label_eq e error = true <-> e = error /\ error <> NaN.
Proof.
  destruct e, error; cbn; split; intros H; try discriminate;
    try (split; [reflexivity|discriminate]); destruct H; congruence.
Qed.

(** A trial is kept exactly when it has an onset, its label is the
    requested one (which then is not [np.NaN]), and its window has the
    full length. *)
Lemma kept_true (L : getEEGTrials_locals) (g : Raw) (error : ErrorLabel) (x : nat) :
  kept L g error x = true <->
  exists t : Z,
    time L !! x = Some t /\ error_array L !! x = Some error /\ error <> NaN /\
    full_window L (window L g t) = true.
Proof.
  unfold kept. split.
  - destruct (error_array L !! x) as [e|]; [|discriminate].
    destruct (time L !! x) as [t|]; [|discriminate].
    intros H. apply andb_true_iff in H. destruct H as [Hl Hf].
    apply label_eq_true in Hl. destruct Hl as [-> Hn].
    exists t. repeat split; assumption.
  - intros (t & -> & -> & Hn & Hf). apply andb_true_iff. split; [|exact Hf].
    apply label_eq_true. split; [reflexivity|exact Hn].
Qed.

(** C8.  Once the prologue has run with a label for every onset, the
    volume [getEEGTrials] returns holds, in trial-index order, the windows
    of exactly the trials [x] whose label equals the requested value
    [error] (and so is not [np.NaN]) and whose window has the full length:
    a trial labelled [np.NaN] or labelled otherwise than [error]
    contributes nothing. *)
Theorem getEEGTrials_selection (self : EEG) (pretime posttime : Qc)
    (error : ErrorLabel) (gdf : option Raw) (offset : bool) (offset_value : Qc)
    (plot : bool) (plot_trigger : Z) (L : getEEGTrials_locals) (g : Raw) :
  getEEGTrials_prologue self pretime posttime gdf = Ok L ->
  gdf_use L = Some g ->
  length (time L) <= length (error_array L) ->
  exists chosen : list nat,
    sublist chosen (range (length (time L))) /\
    (forall x : nat, In x chosen <->
       exists t : Z,
         time L !! x = Some t /\ error_array L !! x = Some error /\
         error <> NaN /\ full_window L (window L g t) = true) /\
    (forall x : nat, In x chosen ->
       error_array L !! x <> Some NaN /\ error_array L !! x = Some error) /\
    (forall out : option Volume,
       getEEGTrials self pretime posttime error gdf offset offset_value plot
         plot_trigger = Ok out ->
       default [] out = map (trial_of L g offset offset_value plot) chosen) /\
    (plot = false ->
     getEEGTrials self pretime posttime error gdf offset offset_value plot
       plot_trigger =
     Ok (stack None (map (trial_of L g offset offset_value plot) chosen))).
Proof.
  intros HL Huse Hlen.
  exists (List.filter (kept L g error) (range (length (time L)))).
  assert (Hin : forall x : nat,
             In x (List.filter (kept L g error) (range (length (time L)))) <->
             exists t : Z,
               time L !! x = Some t /\ error_array L !! x = Some error /\
               error <> NaN /\ full_window L (window L g t) = true).
  { intros x. rewrite filter_In, kept_true. split; [tauto|].
    intros (t & Ht & H). split; [|eauto].
    apply in_seq. apply lookup_lt_Some in Ht. lia. }
  split; [apply filter_sublist|]. split; [exact Hin|]. split; [|split].
  - intros x Hx. apply Hin in Hx. destruct Hx as (t & _ & He & Hn & _).
    rewrite He. split; congruence.
  - intros out.
    rewrite (getEEGTrials_spec _ _ _ _ _ _ _ _ _ L g HL Huse Hlen). cbn zeta.
    destruct plot.
    + destruct (stack None _) as [a|] eqn:Hs; [|discriminate].
      destruct (getitem_Z a plot_trigger); cbn; [|discriminate].
      intros [= <-]. rewrite <- Hs. apply stack_None.
    + intros [= <-]. apply stack_None.
  - intros ->. now rewrite (getEEGTrials_spec _ _ _ _ _ _ _ _ _ L g HL Huse Hlen).
Qed.

(** ** Windows that run off the recording *)

Lemma short_window_not_full (L : getEEGTrials_locals) (w : Slice) :
  (of_nat (shape1 w) < pretime_s L * of_Z (-1) + posttime_s L)%Qc ->
  full_window L w = false.
Proof.
  intros Hlt. unfold full_window.
  destruct (Qc_eq_bool _ _) eqn:E; [|reflexivity].
  apply Qc_eq_bool_correct in E. rewrite E in Hlt.
  now apply Qclt_not_eq in Hlt.
Qed.

(** X1.  Without the plot, and with a label for every onset,
    [getEEGTrials] raises nothing: a trial whose window is shorter than
    [pretime_s*-1 + posttime_s] samples is left out of the volume, and
    the result is [None] when no trial is kept. *)
Theorem getEEGTrials_short_window_dropped (self : EEG) (pretime posttime : Qc)
    (error : ErrorLabel) (gdf : option Raw) (offset : bool) (offset_value : Qc)
    (plot_trigger : Z) (L : getEEGTrials_locals) (g : Raw) :
  getEEGTrials_prologue self pretime posttime gdf = Ok L ->
  gdf_use L = Some g ->
  length (time L) <= length (error_array L) ->
  let chosen := List.filter (kept L g error) (range (length (time L))) in
  exists out : option Volume,
    getEEGTrials self pretime posttime error gdf offset offset_value false
      plot_trigger = Ok out /\
    default [] out = map (trial_of L g offset offset_value false) chosen /\
    (forall (x : nat) (t : Z),
       time L !! x = Some t ->
       (of_nat (shape1 (window L g t)) < pretime_s L * of_Z (-1) + posttime_s L)%Qc ->
       ~ In x chosen) /\
    (chosen = [] -> out = None).
Proof.
  intros HL Huse Hlen chosen.
  exists (stack None (map (trial_of L g offset offset_value false) chosen)).
  split; [|split; [|split]].
  - now rewrite (getEEGTrials_spec _ _ _ _ _ _ _ _ _ L g HL Huse Hlen).
  - apply stack_None.
  - intros x t Ht Hshort Hin. unfold chosen in Hin.
    apply filter_In in Hin. destruct Hin as [_ Hk].
    apply kept_true in Hk. destruct Hk as (t' & Ht' & _ & _ & Hfull).
    rewrite Ht in Ht'. injection Ht' as <-.
    rewrite (short_window_not_full L _ Hshort) in Hfull. discriminate.
  - intros ->. reflexivity.
Qed.

(** C4 at its failing input.  With the plot asked for, running out of
    trials is not survived: the trial to draw is read from [None] and a
    [TypeError] is raised.  Here every window of the example recording
    runs off its start (four seconds before each onset), so no trial is
    kept; without the plot the same call returns [None]. *)
Lemma getEEGTrials_plot_without_trials :
  getEEGTrials Example.self (of_Z 4) (of_Z 1) LFalse None false (of_Z 30) true 0
    = Raise TypeError /\
  getEEGTrials Example.self (of_Z 4) (of_Z 1) LFalse None false (of_Z 30) false 0
    = Ok None.
Proof. split; vm_compute; reflexivity. Qed.

(** ** Times and samples *)

(** C7 as amended.  [getEEGTrials] converts with the fixed rate of 512
    samples per second, whatever the sampling rate [sfreq] of the
    recording it reads: the pre and post sample counts are the products
    [pretime*512] and [posttime*512], not rounded, and every onset index
    is [onset*512] truncated toward zero (as an unsigned 64-bit integer).
    These are the conversions at the recording's own rate when that rate
    is 512. *)
Theorem getEEGTrials_fixed_rate (self : EEG) (pretime posttime : Qc)
    (gdf : option Raw) (L : getEEGTrials_locals) :
  getEEGTrials_prologue self pretime posttime gdf = Ok L ->
  pretime_s L = (- (pretime * of_Z 512))%Qc /\
  posttime_s L = (posttime * of_Z 512)%Qc /\
  (exists (labels : list ErrorLabel) (times : list Qc),
     identifyErrors self = Ok (labels, times) /\
     time L = map (fun t => (Py.int (t * of_Z 512)%Qc) mod 2 ^ 64)%Z times) /\
  forall g : Raw, gdf_use L = Some g -> sfreq g = of_Z 512 ->
    pretime_s L = (- timeToSample pretime (sfreq g))%Qc /\
    posttime_s L = timeToSample posttime (sfreq g) /\
    exists (labels : list ErrorLabel) (times : list Qc),
      identifyErrors self = Ok (labels, times) /\
      time L = timeArrayToSampleArray times (sfreq g).
Proof.
  intros HL.
  destruct (getEEGTrials_prologue_inv _ _ _ _ _ HL)
    as (labels & times & Hid & _ & Hpre & Hpost & _ & Htime).
  assert (Hp : pretime_s L = (- (pretime * of_Z 512))%Qc).
  { rewrite Hpre. unfold timeToSample, fs_default.
    change (of_Z (-1)) with (- (1))%Qc. ring. }
  split; [exact Hp|]. split; [exact Hpost|]. split.
  - exists labels, times. split; [exact Hid|exact Htime].
  - intros g _ Hrate. rewrite Hrate. split; [exact Hp|]. split; [exact Hpost|].
    exists labels, times. split; [exact Hid|exact Htime].
Qed.

Lemma getEEGTrials_fixed_rate_witness :
  pretime_s Example.locals256 = (- (of_Z 1 * of_Z 512))%Qc /\
  posttime_s Example.locals256 = (of_Z 1 * of_Z 512)%Qc /\
  (exists (labels : list ErrorLabel) (times : list Qc),
     identifyErrors Example.self256 = Ok (labels, times) /\
     time Example.locals256 =
       map (fun t => (Py.int (t * of_Z 512)%Qc) mod 2 ^ 64)%Z times) /\
  forall g : Raw, gdf_use Example.locals256 = Some g -> sfreq g = of_Z 512 ->
    pretime_s Example.locals256 = (- timeToSample (of_Z 1) (sfreq g))%Qc /\
    posttime_s Example.locals256 = timeToSample (of_Z 1) (sfreq g) /\
    exists (labels : list ErrorLabel) (times : list Qc),
      identifyErrors Example.self256 = Ok (labels, times) /\
      time Example.locals256 = timeArrayToSampleArray times (sfreq g).
Proof.
  apply (getEEGTrials_fixed_rate Example.self256 (of_Z 1) (of_Z 1) None
           Example.locals256).
  vm_compute. reflexivity.
Defined.

(** C7 as stated fails: the example recording sampled at 256 Hz has its
    one-second pre-event duration turned into 512 samples, not 256. *)
Lemma getEEGTrials_recording_rate_counterexample :
  ~ (forall (self : EEG) (pretime posttime : Qc) (gdf : option Raw)
            (L : getEEGTrials_locals) (g : Raw),
       getEEGTrials_prologue self pretime posttime gdf = Ok L ->
       gdf_use L = Some g ->
       pretime_s L = (- timeToSample pretime (sfreq g))%Qc /\
       posttime_s L = timeToSample posttime (sfreq g) /\
       exists (labels : list ErrorLabel) (times : list Qc),
         identifyErrors self = Ok (labels, times) /\
         time L = timeArrayToSampleArray times (sfreq g)).
Proof.
  intros H.
  assert (HL : getEEGTrials_prologue Example.self256 (of_Z 1) (of_Z 1) None
               = Ok Example.locals256) by (vm_compute; reflexivity).
  assert (Hg : gdf_use Example.locals256 = Some Example.recording256)
    by (vm_compute; reflexivity).
  destruct (H _ _ _ _ _ _ HL Hg) as (Hpre & _).
  apply (f_equal (fun x : Qc => Qnum (this x))) in Hpre.
  vm_compute in Hpre. discriminate Hpre.
Qed.

(** ** Recordings without a trigger channel *)

Lemma prefix_true (sub s : string) :
  String.prefix sub s = true <-> exists post : string, s = (sub ++ post)%string.
Proof.
  revert s. induction sub as [|a sub IH]; intros s; cbn.
  - split; [intros _; now exists s|intros _; now destruct s].
  - destruct s as [|b s]; [split; [discriminate|intros [post [=]]]|].
    cbn. destruct (Ascii.ascii_dec a b) as [->|Hne].
    + rewrite IH. split; intros [post H]; exists post; [now rewrite H|].
      now injection H.
    + split; [discriminate|]. intros [post H]. injection H as -> _.
      now contradiction Hne.
Qed.

(** [contains sub s] is Python's [sub in s]: [sub] occurs in [s]. *)
Lemma contains_true (sub s : string) :
  contains sub s = true <->
  exists pre post : string, s = (pre ++ sub ++ post)%string.
Proof.
  induction s as [|b s IH].
  - cbn [contains]. destruct (String.prefix sub "") eqn:E.
    + apply prefix_true in E. destruct E as [post E].
      split; [intros _; now exists ""%string, post|reflexivity].
    + split; [discriminate|]. intros (pre & post & H).
      destruct pre; [|discriminate]. cbn in H.
      assert (String.prefix sub "" = true) by (apply prefix_true; eauto).
      congruence.
  - cbn [contains]. destruct (String.prefix sub (String b s)) eqn:E.
    + apply prefix_true in E. destruct E as [post E].
      split; [intros _; now exists ""%string, post|reflexivity].
    + rewrite IH. split.
      * intros (pre & post & ->). now exists (String b pre), post.
      * intros (pre & post & H). destruct pre as [|c pre].
        -- cbn in H. assert (String.prefix sub (String b s) = true)
             by (apply prefix_true; eauto). congruence.
        -- injection H as _ ->. eauto.
Qed.

Lemma splitTrigger_loop_None (gdf : Raw) (trigger : string) (names : list string) :
  (forall c : string, In c names -> contains trigger c = false) ->
  splitTrigger_loop gdf trigger names = Ok None.
Proof.
  induction names as [|c names IH]; intros H; [reflexivity|].
  cbn. rewrite (H c) by now left. apply IH. intros c' Hc'. apply H. now right.
Qed.

(** C10.  When no channel name of the recording [gdf] contains
    [trigger], [splitTrigger] returns [None] and leaves the instance as
    it is; so [open], which unpacks the result of
    [splitTrigger("trigger")] into two values, raises a [TypeError] on
    every recording that, as read and renamed, has no channel name
    containing "trigger". *)
Theorem open_without_trigger_channel
    (Path : string -> PurePath) (read_raw_gdf : string -> result Raw)
    (rename_channels : Raw -> list (string * string) -> result Raw)
    (EE385VMatFile_load : string -> result EE385VMatFile)
    (gdf : Raw) (trigger : string) :
  (forall c pre post : string,
     In c (ch_names gdf) -> c <> (pre ++ trigger ++ post)%string) ->
  (forall self : EEG, __gdf self = Some gdf ->
     splitTrigger self trigger = Ok (None, self)) /\
  (trigger = "trigger"%string ->
   forall (self : EEG) (filepath mat_path : string)
          (channel_names : option (list (string * string))),
     open_recording Path read_raw_gdf rename_channels filepath channel_names
       = Ok (gdf, mat_path) ->
     open Path read_raw_gdf rename_channels EE385VMatFile_load self filepath
       channel_names = Raise TypeError).
Proof.
  intros Hno.
  assert (Hloop : splitTrigger_loop gdf trigger (ch_names gdf) = Ok None).
  { apply splitTrigger_loop_None. intros c Hc.
    destruct (contains trigger c) eqn:E; [|reflexivity].
    apply contains_true in E. destruct E as (pre & post & E).
    now destruct (Hno c pre post Hc). }
  split.
  - intros self Hg. unfold splitTrigger, getChannelNames. rewrite Hg. cbn.
    now rewrite Hloop.
  - intros -> self filepath mat_path channel_names Hrec.
    unfold open. rewrite Hrec. cbn. unfold splitTrigger, getChannelNames. cbn.
    now rewrite Hloop.
Qed.

Lemma open_without_trigger_channel_witness :
  (forall self : EEG, __gdf self = Some Example.recording ->
     splitTrigger self "trigger" = Ok (None, self)) /\
  ("trigger"%string = "trigger"%string ->
   forall (self : EEG) (filepath mat_path : string)
          (channel_names : option (list (string * string))),
     open_recording Example.Path Example.read_raw_gdf Example.rename_channels
       filepath channel_names = Ok (Example.recording, mat_path) ->
     open Example.Path Example.read_raw_gdf Example.rename_channels
       Example.EE385VMatFile_load self filepath channel_names = Raise TypeError).
Proof.
  apply (open_without_trigger_channel Example.Path Example.read_raw_gdf
           Example.rename_channels Example.EE385VMatFile_load
           Example.recording "trigger").
  intros c pre post [<-|[<-|[]]] H;
    (assert (E : contains "trigger" (pre ++ "trigger" ++ post) = true)
       by (apply contains_true; eauto));
    rewrite <- H in E; vm_compute in E; discriminate.
Defined.

(** ** CARFilter: the loop over the heap *)

Lemma insert_mapped_prefix {A : Type} (f : A -> A) (k : nat) :
  forall (v z : list A) (x : A),
    v !! k = Some x -> length z = length v ->
    <[k := f x]> (map f (take k v) ++ drop k z) =
    map f (take (S k) v) ++ drop (S k) z.
Proof.
  induction k as [|k IH]; intros [|a v] [|b z] x Hx Hlen;
    try discriminate; cbn in *.
  - now injection Hx as ->.
  - f_equal. apply IH; [exact Hx|lia].
Qed.

(** One round: the input array [W] at [eegVolume] and the output array
    [F] at the new address both receive [car s] at [trigger]. *)
Lemma CARFilter_body_at (h : Heap) (eegVolume trigger : nat) (W F : Volume)
    (s : Slice) :
  eegVolume < length h -> W !! trigger = Some s ->
  CARFilter_body eegVolume (length h) (<[eegVolume := W]> h ++ [F]) trigger =
    Ok (<[eegVolume := <[trigger := car s]> W]> h ++ [<[trigger := car s]> F]).
Proof.
  intros Hl Hs.
  assert (Hk : trigger < length W) by (eapply lookup_lt_Some; eauto).
  unfold CARFilter_body, getitem.
  rewrite lookup_app_l by (rewrite length_insert; lia).
  rewrite list_lookup_insert_eq by lia. cbn [mbind result_bind].
  rewrite Hs. cbn [mbind result_bind].
  rewrite insert_app_l by (rewrite length_insert; lia).
  rewrite list_insert_insert_eq.
  rewrite (lookup_app_l _ _ eegVolume) by (rewrite length_insert; lia).
  rewrite list_lookup_insert_eq by lia. cbn [mbind result_bind].
  rewrite list_lookup_insert_eq by lia. cbn [mbind result_bind].
  rewrite lookup_app_r by (rewrite length_insert; lia).
  rewrite length_insert, Nat.sub_diag. cbn [lookup list_lookup mbind result_bind].
  rewrite insert_app_r_alt by (rewrite length_insert; lia).
  rewrite length_insert, Nat.sub_diag. reflexivity.
Qed.

Lemma CARFilter_loop (h : Heap) (eegVolume : nat) (v F : Volume) :
  eegVolume < length h -> length F = length v ->
  forall m k : nat, k + m = length v ->
    for_each (CARFilter_body eegVolume (length h)) (seq k m)
      (<[eegVolume := map car (take k v) ++ drop k v]> h
         ++ [map car (take k v) ++ drop k F]) =
    Ok (<[eegVolume := map car v]> h ++ [map car v]).
Proof.
  intros Hl HF m. induction m as [|m IH]; intros k Hk.
  - cbn. rewrite !take_ge, !drop_ge, !app_nil_r by lia. reflexivity.
  - cbn [seq for_each].
    destruct (lookup_lt_is_Some_2 v k) as [s Hs]; [lia|].
    rewrite (CARFilter_body_at h eegVolume k _ _ s Hl).
    + cbn [mbind result_bind].
      rewrite (insert_mapped_prefix car k v v s Hs eq_refl).
      rewrite (insert_mapped_prefix car k v F s Hs HF).
      apply IH. lia.
    + rewrite lookup_app_r by (rewrite length_map, length_take; lia).
      rewrite length_map, length_take, lookup_drop.
      replace (k + (k - k `min` length v)) with k by lia. exact Hs.
Qed.

Lemma zeros_like_length (v : Volume) : length (zeros_like v) = length v.
Proof. unfold zeros_like. apply length_replicate. Qed.

(** [CARFilter] in full: the new array holds [car] of every trial, and
    so does the array it was given. *)
Lemma CARFilter_spec (h : Heap) (eegVolume : nat) (v : Volume) :
  h !! eegVolume = Some v ->
  CARFilter eegVolume h =
    Ok (length h, <[eegVolume := map car v]> h ++ [map car v]).
Proof.
  intros Hv.
  assert (Hl : eegVolume < length h) by (eapply lookup_lt_Some; eauto).
  unfold CARFilter, getitem. rewrite Hv. cbn [mbind result_bind]. unfold range.
  pose proof (CARFilter_loop h eegVolume v (zeros_like v) Hl
                (zeros_like_length v) (length v) 0 eq_refl) as Hloop.
  rewrite !take_0, !drop_0 in Hloop. cbn [map app] in Hloop.
  rewrite (list_insert_id h _ _ Hv) in Hloop.
  rewrite Hloop. reflexivity.
Qed.

(** ** CARFilter: the mean over the channels *)

Lemma of_nat_S (n : nat) : of_nat (S n) = (of_nat n + 1)%Qc.
Proof.
  unfold of_nat, of_Z. apply Qc_is_canon. cbn [this Qcplus Q2Qc].
  rewrite !Qred_correct. rewrite Nat2Z.inj_succ. unfold Z.succ.
  now rewrite inject_Z_plus.
Qed.

Lemma of_nat_nonzero (n : nat) : 0 < n -> of_nat n <> 0%Qc.
Proof.
  intros Hn H. change 0%Qc with (of_nat 0) in H. apply of_nat_inj in H. lia.
Qed.

Lemma nth_zip_with_minus (r a : list Qc) (j : nat) :
  j < length r -> j < length a ->
  nth j (zip_with Qcminus r a) 0%Qc = (nth j r 0 - nth j a 0)%Qc.
Proof.
  revert a j. induction r as [|x r IH]; intros [|y a] [|j] Hr Ha;
    cbn in *; try lia; [reflexivity|]. apply IH; lia.
Qed.

Lemma nth_map_seq {A : Type} (f : nat -> A) (d : A) (n : nat) :
  forall k j : nat, j < n -> nth j (map f (seq k n)) d = f (k + j).
Proof.
  induction n as [|n IH]; intros k [|j] Hj; cbn; try lia.
  - now rewrite Nat.add_0_r.
  - rewrite IH by lia. f_equal. lia.
Qed.

Lemma mean_axis0_length (s : list (list Qc)) : length (mean_axis0 s) = shape1 s.
Proof. unfold mean_axis0, range. now rewrite length_map, length_seq. Qed.

Lemma mean_axis0_nth (s : list (list Qc)) (j : nat) :
  j < shape1 s -> nth j (mean_axis0 s) 0%Qc = mean (column s j).
Proof. intros Hj. unfold mean_axis0, range. now rewrite nth_map_seq. Qed.

Lemma sum_shifted {A : Type} (g : A -> Qc) (a : Qc) (l : list A) :
  sum (map (fun x => (g x - a)%Qc) l) = (sum (map g l) - of_nat (length l) * a)%Qc.
Proof.
  induction l as [|x l IH].
  - cbn. change (of_nat 0) with 0%Qc. ring.
  - cbn [map sum foldr length]. fold (sum (map (fun x => (g x - a)%Qc) l)).
    fold (sum (map g l)). rewrite IH, of_nat_S. ring.
Qed.

(** Rows of equal length: the shape of a non-empty slice. *)
Lemma uniform_shape1 (s : list (list Qc)) (S : nat) :
  Forall (fun row => length row = S) s -> s <> [] -> shape1 s = S.
Proof.
  intros H Hne. destruct s as [|r s]; [congruence|].
  now apply Forall_inv in H.
Qed.

(** A column of [car s]: the column of [s] minus its mean. *)
Lemma car_column (s : list (list Qc)) (S j : nat) :
  Forall (fun row => length row = S) s -> j < S ->
  column (car s) j =
    map (fun row => (nth j row 0 - mean (column s j))%Qc) s.
Proof.
  intros Hrows Hj. unfold column at 1, car, subtract. rewrite map_map.
  apply map_ext_in. intros row Hrow.
  assert (Hs : shape1 s = S).
  { apply uniform_shape1; [exact Hrows|]. intros ->. destruct Hrow. }
  rewrite List.Forall_forall in Hrows.
  rewrite nth_zip_with_minus.
  - rewrite mean_axis0_nth by lia. reflexivity.
  - rewrite (Hrows row Hrow). exact Hj.
  - rewrite mean_axis0_length. lia.
Qed.

(** The mean over the channels of [car s] is zero at every sample. *)
Lemma car_mean_zero (s : list (list Qc)) (S j : nat) :
  Forall (fun row => length row = S) s -> 0 < length s -> j < S ->
  mean (column (car s) j) = 0%Qc.
Proof.
  intros Hrows Hc Hj. unfold mean.
  rewrite (car_column s S j Hrows Hj).
  rewrite (sum_shifted (fun row => nth j row 0%Qc)), length_map.
  unfold mean, column. rewrite length_map.
  pose proof (of_nat_nonzero (length s) Hc) as Hnz.
  field. exact Hnz.
Qed.

(** [car] keeps the shape of a slice. *)
Lemma car_length (s : list (list Qc)) : length (car s) = length s.
Proof. unfold car, subtract. apply length_map. Qed.

Lemma car_rows (s : list (list Qc)) (S : nat) :
  Forall (fun row => length row = S) s ->
  Forall (fun row => length row = S) (car s).
Proof.
  intros Hrows. destruct s as [|r0 s0] eqn:E; [constructor|]. rewrite <- E in *.
  assert (Hs : shape1 s = S) by (apply uniform_shape1; [exact Hrows|congruence]).
  unfold car, subtract. apply List.Forall_forall. intros row' Hin.
  apply in_map_iff in Hin. destruct Hin as (row & <- & Hrow).
  rewrite List.Forall_forall in Hrows.
  rewrite length_zip_with, mean_axis0_length, Hs, (Hrows row Hrow). lia.
Qed.

Lemma map_car_well_shaped (v : Volume) (C S : nat) :
  well_shaped v C S -> well_shaped (map car v) C S.
Proof.
  unfold well_shaped. intros H. rewrite List.Forall_forall in H.
  apply List.Forall_forall. intros trial' Hin.
  apply in_map_iff in Hin. destruct Hin as (trial & <- & Htrial).
  destruct (H trial Htrial) as [Hc Hr]. split.
  - now rewrite car_length.
  - now apply car_rows.
Qed.

Lemma zip_minus_zeros (row : list Qc) :
  forall n k : nat, length row <= n ->
    zip_with Qcminus row (map (fun _ => 0%Qc) (seq k n)) = row.
Proof.
  induction row as [|x row IH]; intros [|n] k Hn; cbn in *;
    try lia; try reflexivity.
  f_equal; [ring|]. apply IH. lia.
Qed.

(** Filtering a slice that was filtered changes nothing: its mean over
    the channels is already zero. *)
Lemma car_idempotent (s : list (list Qc)) (S : nat) :
  Forall (fun row => length row = S) s -> car (car s) = car s.
Proof.
  intros Hrows. destruct s as [|r0 s0] eqn:E; [reflexivity|]. rewrite <- E in *.
  assert (Hc : 0 < length s) by (rewrite E; cbn; lia).
  pose proof (car_rows s S Hrows) as Hrows'.
  assert (Hs : shape1 (car s) = S).
  { apply uniform_shape1; [exact Hrows'|].
    intros H. apply (f_equal length) in H. rewrite car_length in H.
    cbn in H. lia. }
  assert (Hmean : mean_axis0 (car s) = map (fun _ => 0%Qc) (seq 0 S)).
  { unfold mean_axis0, range. rewrite Hs. apply map_ext_in.
    intros j Hj. apply in_seq in Hj. apply (car_mean_zero s S j Hrows Hc). lia. }
  unfold car at 1, subtract. rewrite Hmean.
  rewrite <- (map_id (car s)) at 2. apply map_ext_in. intros row Hrow.
  apply zip_minus_zeros. rewrite List.Forall_forall in Hrows'.
  rewrite (Hrows' row Hrow). lia.
Qed.

Lemma map_car_idempotent (v : Volume) (C S : nat) :
  well_shaped v C S -> map car (map car v) = map car v.
Proof.
  unfold well_shaped. intros H. rewrite map_map. apply map_ext_in.
  intros trial Htrial. rewrite List.Forall_forall in H.
  destruct (H trial Htrial) as [_ Hr]. now apply (car_idempotent trial S).
Qed.

Lemma lookup_new_array (h : Heap) (a : nat)
    (W out : Volume) :
  (<[a := W]> h ++ [out]) !! length h = Some out.
Proof. apply list_lookup_middle. now rewrite length_insert. Qed.

(** ** CARFilter: the claims *)

(** C5.  For a volume of trials with [C >= 1] channels and [S] samples,
    [CARFilter] returns a volume of the same shape in which, for every
    trial and every sample point, the mean over the channels is zero
    (in the exact arithmetic of the embedding). *)
Theorem CARFilter_zero_mean (h : Heap) (eegVolume : nat)
    (v : Volume) (C S : nat) :
  h !! eegVolume = Some v -> well_shaped v C S -> 0 < C ->
  exists (filtered : nat) (h' : Heap)
         (out : Volume),
    CARFilter eegVolume h = Ok (filtered, h') /\
    h' !! filtered = Some out /\
    length out = length v /\ well_shaped out C S /\
    forall trial : list (list Qc), In trial out ->
      forall s : nat, s < S -> mean (column trial s) = 0%Qc.
Proof.
  intros Hv Hshape HC.
  exists (length h), (<[eegVolume := map car v]> h ++ [map car v]), (map car v).
  split; [now apply CARFilter_spec|]. split; [apply lookup_new_array|].
  split; [apply length_map|]. split; [now apply map_car_well_shaped|].
  intros trial' Hin s Hs. apply in_map_iff in Hin.
  destruct Hin as (trial & <- & Htrial).
  unfold well_shaped in Hshape. rewrite List.Forall_forall in Hshape.
  destruct (Hshape trial Htrial) as [Hc Hr].
  apply (car_mean_zero trial S s Hr); lia.
Qed.

Lemma CARFilter_zero_mean_witness :
  exists (filtered : nat) (h' : Heap)
         (out : Volume),
    CARFilter 0 [Example.volume] = Ok (filtered, h') /\
    h' !! filtered = Some out /\
    length out = length Example.volume /\ well_shaped out 2 1 /\
    forall trial : list (list Qc), In trial out ->
      forall s : nat, s < 1 -> mean (column trial s) = 0%Qc.
Proof.
  apply (CARFilter_zero_mean [Example.volume] 0 Example.volume 2 1).
  - reflexivity.
  - repeat constructor.
  - lia.
Defined.

(** C6 as amended.  [CARFilter] returns a new array (an address the
    heap did not hold) of the shape of the array it was given, leaves
    every other array as it was, and does not leave its input
    unchanged: the array it was given is overwritten in place and holds,
    after the call, the same filtered values as the array returned. *)
Theorem CARFilter_overwrites_input (h : Heap)
    (eegVolume : nat) (v : Volume) (C S : nat) :
  h !! eegVolume = Some v -> well_shaped v C S ->
  exists (filtered : nat) (h' : Heap)
         (out : Volume),
    CARFilter eegVolume h = Ok (filtered, h') /\
    h !! filtered = None /\ filtered <> eegVolume /\
    h' !! filtered = Some out /\
    length out = length v /\ well_shaped out C S /\
    out = map car v /\
    h' !! eegVolume = Some out /\
    forall a : nat, a <> eegVolume -> a < length h -> h' !! a = h !! a.
Proof.
  intros Hv Hshape.
  assert (Hl : eegVolume < length h) by (eapply lookup_lt_Some; eauto).
  exists (length h), (<[eegVolume := map car v]> h ++ [map car v]), (map car v).
  split; [now apply CARFilter_spec|].
  split; [apply lookup_ge_None; lia|]. split; [lia|].
  split; [apply lookup_new_array|]. split; [apply length_map|].
  split; [now apply map_car_well_shaped|]. split; [reflexivity|]. split.
  - rewrite lookup_app_l by (rewrite length_insert; lia).
    now apply list_lookup_insert_eq.
  - intros a Ha Hlt. rewrite lookup_app_l by (rewrite length_insert; lia).
    now apply list_lookup_insert_ne.
Qed.

Lemma CARFilter_overwrites_input_witness :
  exists (filtered : nat) (h' : Heap)
         (out : Volume),
    CARFilter 0 [Example.volume] = Ok (filtered, h') /\
    [Example.volume] !! filtered = None /\ filtered <> 0 /\
    h' !! filtered = Some out /\
    length out = length Example.volume /\ well_shaped out 2 1 /\
    out = map car Example.volume /\
    h' !! 0 = Some out /\
    forall a : nat, a <> 0 -> a < length [Example.volume] ->
      h' !! a = [Example.volume] !! a.
Proof.
  apply (CARFilter_overwrites_input [Example.volume] 0 Example.volume 2 1).
  - reflexivity.
  - repeat constructor.
Defined.

(** C6 as stated fails: after [CARFilter] on the example volume, whose
    one trial holds 1 and 3 at its one sample point, the array that was
    given holds -1 and 1. *)
Lemma CARFilter_input_unchanged_counterexample :
  ~ (forall (h : Heap) (eegVolume : nat)
            (v : Volume) (filtered : nat)
            (h' : Heap),
       h !! eegVolume = Some v ->
       CARFilter eegVolume h = Ok (filtered, h') ->
       h' !! eegVolume = Some v).
Proof.
  intros H.
  specialize (H [Example.volume] 0 Example.volume 1
                ([map car Example.volume] ++ [map car Example.volume]) eq_refl).
  rewrite (CARFilter_spec [Example.volume] 0 Example.volume eq_refl) in H.
  specialize (H eq_refl). vm_compute in H. discriminate H.
Qed.

(** C9 as amended.  In exact arithmetic [CARFilter] is idempotent:
    applied to the array [CARFilter] returned it yields an array with
    the same values, for every volume of trials with [C] channels and
    [S] samples.  (In the binary64 arithmetic of the code the second
    pass can change the values, see the counterexample below.) *)
Theorem CARFilter_idempotent (h : Heap) (eegVolume : nat)
    (v : Volume) (C S : nat) :
  h !! eegVolume = Some v -> well_shaped v C S ->
  exists (filtered filtered2 : nat) (h1 h2 : Heap)
         (out : Volume),
    CARFilter eegVolume h = Ok (filtered, h1) /\
    h1 !! filtered = Some out /\
    CARFilter filtered h1 = Ok (filtered2, h2) /\
    h2 !! filtered2 = Some out.
Proof.
  intros Hv Hshape.
  set (h1 := <[eegVolume := map car v]> h ++ [map car v]).
  assert (H1 : h1 !! length h = Some (map car v)) by apply lookup_new_array.
  exists (length h), (length h1), h1,
    (<[length h := map car (map car v)]> h1 ++ [map car (map car v)]),
    (map car v).
  split; [now apply CARFilter_spec|]. split; [exact H1|].
  split; [now apply CARFilter_spec|].
  rewrite lookup_new_array. f_equal. now apply (map_car_idempotent v C S).
Qed.

Lemma CARFilter_idempotent_witness :
  exists (filtered filtered2 : nat) (h1 h2 : Heap)
         (out : Volume),
    CARFilter 0 [Example.volume] = Ok (filtered, h1) /\
    h1 !! filtered = Some out /\
    CARFilter filtered h1 = Ok (filtered2, h2) /\
    h2 !! filtered2 = Some out.
Proof.
  apply (CARFilter_idempotent [Example.volume] 0 Example.volume 2 1).
  - reflexivity.
  - repeat constructor.
Defined.

(** The two passes of [CARFilter] in binary64 on one trial with the
    channels 0.1 and 0.3: the first pass subtracts the mean 0.2 and
    leaves -0.1 and 0.09999999999999998, whose mean is not zero but
    -2^-56; the second pass subtracts that and leaves
    -0.09999999999999999 and 0.09999999999999999. *)
Lemma CARFilter_binary64_example :
  binary64.CARFilter 0 [binary64.volume] =
    Ok (1, [binary64.once; binary64.once]) /\
  binary64.CARFilter 1 [binary64.once; binary64.once] =
    Ok (2, [binary64.once; binary64.twice; binary64.twice]).
Proof. split; vm_compute; reflexivity. Qed.

Lemma CARFilter_binary64_residue :
  map binary64.mean_axis0 binary64.once = [[binary64.residue]].
Proof. vm_compute. reflexivity. Qed.

(** C9 as stated fails in the arithmetic of the code: in binary64,
    [CARFilter] applied to the array it returned for the channels 0.1
    and 0.3 yields other values than the first pass, because the
    rounded output of the first pass is not zero-mean. *)
Lemma CARFilter_binary64_idempotent_counterexample :
  ~ (forall (h : binary64.Heap) (eegVolume : nat) (v : binary64.Volume)
            (filtered filtered2 : nat) (h1 h2 : binary64.Heap)
            (out out2 : binary64.Volume),
       h !! eegVolume = Some v ->
       binary64.CARFilter eegVolume h = Ok (filtered, h1) ->
       h1 !! filtered = Some out ->
       binary64.CARFilter filtered h1 = Ok (filtered2, h2) ->
       h2 !! filtered2 = Some out2 ->
       out2 = out).
Proof.
  intros H. destruct CARFilter_binary64_example as [H1 H2].
  specialize (H [binary64.volume] 0 binary64.volume 1 2
                [binary64.once; binary64.once]
                [binary64.once; binary64.twice; binary64.twice]
                binary64.once binary64.twice eq_refl H1 eq_refl H2 eq_refl).
  apply (f_equal (fun v : binary64.Volume =>
                    PrimFloat.eqb
                      (nth 0 (nth 0 (nth 0 v []) []) PrimFloat.nan)
                      (nth 0 (nth 0 (nth 0 binary64.once []) [])
                           PrimFloat.nan))) in H.
  vm_compute in H. discriminate H.
Qed.

(** ** The theorems on the example recording *)

Lemma getEEGTrials_trial_shape_witness :
  rectangular (_data Example.recording) /\
  getEEGTrials Example.self (Q2Qc (1 # 2)) 1%Qc LFalse None false (of_Z 30)
    false 0 = Ok (Some [get_data Example.recording 256 1024]) /\
  forall trial : list (list Qc),
    In trial [get_data Example.recording 256 1024] ->
    length trial = 2 /\
    forall row : list Qc, In row trial -> length row = 768.
Proof.
  assert (Hrect : rectangular (_data Example.recording))
    by (repeat constructor).
  assert (Hrun : getEEGTrials Example.self (Q2Qc (1 # 2)) 1%Qc LFalse None
                   false (of_Z 30) false 0
                 = Ok (Some [get_data Example.recording 256 1024]))
    by (vm_compute; reflexivity).
  split; [exact Hrect|]. split; [exact Hrun|].
  intros trial Hin.
  destruct (getEEGTrials_trial_shape Example.self (Q2Qc (1 # 2)) 1%Qc LFalse
              None false (of_Z 30) false 0 Example.recording
              [get_data Example.recording 256 1024] eq_refl Hrect Hrun
              trial Hin) as [Hc Hr].
  split; [exact Hc|]. intros row Hrow.
  exact (proj2 (Hr row Hrow) eq_refl eq_refl).
Defined.

Lemma getEEGTrials_selection_witness :
  exists chosen : list nat,
    sublist chosen (range (length (time Example.locals))) /\
    (forall x : nat, In x chosen <->
       exists t : Z,
         time Example.locals !! x = Some t /\
         error_array Example.locals !! x = Some LFalse /\
         LFalse <> NaN /\
         full_window Example.locals (window Example.locals Example.recording t)
           = true) /\
    (forall x : nat, In x chosen ->
       error_array Example.locals !! x <> Some NaN /\
       error_array Example.locals !! x = Some LFalse) /\
    (forall out : option (Volume),
       getEEGTrials Example.self (Example.q 1 2) (of_Z 1) LFalse None false
         (of_Z 30) false 0 = Ok out ->
       default [] out =
         map (trial_of Example.locals Example.recording false (of_Z 30) false)
             chosen) /\
    (false = false ->
     getEEGTrials Example.self (Example.q 1 2) (of_Z 1) LFalse None false
       (of_Z 30) false 0 =
     Ok (stack None
           (map (trial_of Example.locals Example.recording false (of_Z 30) false)
                chosen))).
Proof.
  apply (getEEGTrials_selection Example.self (Example.q 1 2) (of_Z 1) LFalse
           None false (of_Z 30) false 0 Example.locals Example.recording).
  - vm_compute. reflexivity.
  - vm_compute. reflexivity.
  - vm_compute. lia.
Defined.

Lemma getEEGTrials_short_window_dropped_witness :
  exists out : option (Volume),
    getEEGTrials Example.self (Example.q 1 2) (of_Z 1) LFalse None false
      (of_Z 30) false 0 = Ok out /\
    default [] out =
      map (trial_of Example.locals Example.recording false (of_Z 30) false)
          (List.filter (kept Example.locals Example.recording LFalse)
                       (range (length (time Example.locals)))) /\
    (forall (x : nat) (t : Z),
       time Example.locals !! x = Some t ->
       (of_nat (shape1 (window Example.locals Example.recording t)) <
        pretime_s Example.locals * of_Z (-1) + posttime_s Example.locals)%Qc ->
       ~ In x (List.filter (kept Example.locals Example.recording LFalse)
                           (range (length (time Example.locals))))) /\
    (List.filter (kept Example.locals Example.recording LFalse)
                 (range (length (time Example.locals))) = [] ->
     out = None).
Proof.
  apply (getEEGTrials_short_window_dropped Example.self (Example.q 1 2) (of_Z 1)
           LFalse None false (of_Z 30) 0 Example.locals Example.recording).
  - vm_compute. reflexivity.
  - vm_compute. reflexivity.
  - vm_compute. lia.
Defined.

(** On the example, the third trial (onset 3.5 s) is labelled [False]
    like the first, and its window runs off the end of the recording:
    only the first trial is kept. *)
Lemma getEEGTrials_example_kept :
  error_array Example.locals = [LFalse; LTrue; LFalse] /\
  time Example.locals = [512; 1024; 1792]%Z /\
  List.filter (kept Example.locals Example.recording LFalse)
              (range (length (time Example.locals))) = [0] /\
  shape1 (window Example.locals Example.recording 1792) = 512.
Proof. repeat split; vm_compute; reflexivity. Qed.


(** * Further properties *)

(** ** Splitting off the trigger channel *)

Lemma zip_filter_out (c : string) (names : list string) (ds : list (list Qc)) :
  ~ In c names ->
  List.filter (fun p => negb (String.eqb (fst p) c)) (zip names ds) = zip names ds /\
  List.filter (fun p => String.eqb (fst p) c) (zip names ds) = [].
Proof.
  revert ds. induction names as [|n names IH]; intros [|d ds] Hc; cbn;
    try (split; reflexivity).
  assert (Hn : String.eqb n c = false).
  { apply String.eqb_neq. intros ->. apply Hc. now left. }
  rewrite Hn. cbn. destruct (IH ds) as [IH1 IH2].
  { intros H. apply Hc. now right. }
  now rewrite IH1, IH2.
Qed.

Lemma zip_fst_snd (names : list string) (ds : list (list Qc)) :
  length ds = length names ->
  map fst (zip names ds) = names /\ map snd (zip names ds) = ds.
Proof.
  revert ds. induction names as [|n names IH]; intros [|d ds] Hlen;
    try discriminate; cbn; [split; reflexivity|].
  destruct (IH ds) as [IH1 IH2]; [cbn in Hlen; lia|]. now rewrite IH1, IH2.
Qed.

(** What [drop_channels] and [get_data(picks=c)] make of a recording in
    which the channel [c] stands once, between the channels [pre] and
    [post]: the last channel of a recording cannot be dropped. *)
Lemma split_channel (gdf : Raw) (c : string) (pre post : list string)
    (row : list Qc) (dpre dpost : list (list Qc)) :
  ch_names gdf = pre ++ c :: post ->
  _data gdf = dpre ++ row :: dpost ->
  length dpre = length pre -> length dpost = length post ->
  ~ In c pre -> ~ In c post ->
  get_data_picks gdf c = [row] /\
  drop_channels gdf c =
    match pre ++ post with
    | [] => Raise ValueError
    | _ :: _ =>
        Ok {| sfreq := sfreq gdf;
              ch_names := pre ++ post;
              _data := dpre ++ dpost;
              annotations := annotations gdf |}
    end.
Proof.
  intros Hn Hd Hlpre Hlpost Hpre Hpost.
  assert (Hz : named gdf = zip pre dpre ++ (c, row) :: zip post dpost).
  { unfold named. rewrite Hn, Hd.
    now apply (zip_with_app pair pre (c :: post) dpre (row :: dpost)). }
  destruct (zip_filter_out c pre dpre Hpre) as [Hk1 Hp1].
  destruct (zip_filter_out c post dpost Hpost) as [Hk2 Hp2].
  destruct (zip_fst_snd pre dpre Hlpre) as [Hf1 Hs1].
  destruct (zip_fst_snd post dpost Hlpost) as [Hf2 Hs2].
  assert (Hin : existsb (String.eqb c) (ch_names gdf) = true).
  { rewrite Hn, existsb_app. cbn [existsb]. rewrite String.eqb_refl.
    now rewrite orb_true_r. }
  unfold get_data_picks, drop_channels. rewrite Hin, Hz. cbn [negb].
  rewrite !List.filter_app. cbn [List.filter fst]. rewrite String.eqb_refl.
  cbn [negb]. rewrite Hk1, Hk2, Hp1, Hp2. cbn [app map snd]. split; [reflexivity|].
  assert (Hf : map fst (zip pre dpre ++ zip post dpost) = pre ++ post)
    by now rewrite map_app, Hf1, Hf2.
  assert (Hs : map snd (zip pre dpre ++ zip post dpost) = dpre ++ dpost)
    by now rewrite map_app, Hs1, Hs2.
  destruct (zip pre dpre ++ zip post dpost) as [|k kept].
  - cbn in Hf. now rewrite <- Hf.
  - rewrite <- Hf, <- Hs. reflexivity.
Qed.

Lemma splitTrigger_loop_first (gdf : Raw) (trigger c : string)
    (pre post : list string) :
  (forall n : string, In n pre -> contains trigger n = false) ->
  contains trigger c = true ->
  splitTrigger_loop gdf trigger (pre ++ c :: post) =
    (data_no_trigger ← drop_channels gdf c;
     Ok (Some (data_no_trigger, get_data_picks gdf c))).
Proof.
  intros Hpre Hc. induction pre as [|n pre IH]; cbn [app splitTrigger_loop].
  - now rewrite Hc.
  - rewrite (Hpre n) by now left. apply IH. intros n' Hn'. apply Hpre. now right.
Qed.

(** What [splitTrigger] does at the first channel [c] whose name
    contains [trigger]. *)
Lemma splitTrigger_at_first (self : EEG) (gdf : Raw) (trigger c : string)
    (pre post : list string) :
  __gdf self = Some gdf ->
  ch_names gdf = pre ++ c :: post ->
  (forall n : string, In n pre -> contains trigger n = false) ->
  contains trigger c = true ->
  splitTrigger self trigger =
    (data_no_trigger ← drop_channels gdf c;
     Ok (Some (data_no_trigger, get_data_picks gdf c),
         {| __gdf := Some data_no_trigger; __mat := __mat self;
            __eeg := __eeg self; __trigger := __trigger self |})).
Proof.
  intros Hg Hn Hno Hc. unfold splitTrigger, getChannelNames. rewrite Hg.
  cbn [attr mbind result_bind].
  rewrite Hn, (splitTrigger_loop_first gdf trigger c pre post Hno Hc).
  now destruct (drop_channels gdf c).
Qed.

(** X2.  [splitTrigger] takes the first channel whose name contains
    [trigger], whatever follows it.  On a recording whose channel names
    are [pre ++ c :: post] with data rows [dpre ++ row :: dpost], where no
    name of [pre] contains [trigger], [c] does, and [c] stands once:
    when [c] is the only channel, the call raises [ValueError] (the last
    channel cannot be dropped); otherwise it returns the data [[row]] of
    that channel and the recording without it (channels [pre ++ post],
    rows [dpre ++ dpost], same annotations and rate), and the instance's
    own recording [__gdf] is that recording too. *)
Theorem splitTrigger_first_match (self : EEG) (gdf : Raw) (trigger c : string)
    (pre post : list string) (row : list Qc) (dpre dpost : list (list Qc)) :
  __gdf self = Some gdf ->
  ch_names gdf = pre ++ c :: post ->
  _data gdf = dpre ++ row :: dpost ->
  length dpre = length pre -> length dpost = length post ->
  ~ In c pre -> ~ In c post ->
  (forall n : string, In n pre -> contains trigger n = false) ->
  contains trigger c = true ->
  match pre ++ post with
  | [] => splitTrigger self trigger = Raise ValueError
  | _ :: _ =>
      exists (data_no_trigger : Raw) (self' : EEG),
        splitTrigger self trigger = Ok (Some (data_no_trigger, [row]), self') /\
        __gdf self' = Some data_no_trigger /\
        __mat self' = __mat self /\
        ch_names data_no_trigger = pre ++ post /\
        _data data_no_trigger = dpre ++ dpost /\
        annotations data_no_trigger = annotations gdf /\
        sfreq data_no_trigger = sfreq gdf
  end.
Proof.
  intros Hg Hn Hd Hlpre Hlpost Hpre Hpost Hno Hc.
  destruct (split_channel gdf c pre post row dpre dpost Hn Hd Hlpre Hlpost
              Hpre Hpost) as (Hpick & Hdrop).
  rewrite (splitTrigger_at_first self gdf trigger c pre post Hg Hn Hno Hc).
  rewrite Hpick, Hdrop. destruct (pre ++ post) as [|n others]; [reflexivity|].
  eexists. eexists. split; [reflexivity|]. cbn. repeat split.
Qed.

(** ** Opening a recording *)

(** X3.  [open] accepts only a path whose suffix is [.gdf] or [.mat]:
    for any other suffix it raises [IOError], whatever the files hold. *)
Theorem open_other_suffix
    (Path : string -> PurePath) (read_raw_gdf : string -> result Raw)
    (rename_channels : Raw -> list (string * string) -> result Raw)
    (EE385VMatFile_load : string -> result EE385VMatFile)
    (self : EEG) (filepath : string)
    (channel_names : option (list (string * string))) :
  suffix (Path filepath) <> ".gdf"%string ->
  suffix (Path filepath) <> ".mat"%string ->
  open Path read_raw_gdf rename_channels EE385VMatFile_load self filepath
    channel_names = Raise IOError.
Proof.
  intros Hgdf Hmat. unfold open, open_recording.
  apply String.eqb_neq in Hgdf, Hmat. now rewrite Hgdf, Hmat.
Qed.

(** X4.  [open] on a path with suffix [.gdf] or [.mat] reads the
    recording from the [.gdf] file and the behaviour log from the [.mat]
    file of the same directory and stem.  When the recording, as read and
    renamed, has the channels [pre ++ c :: post] with [c] the first name
    containing "trigger" (and standing once): if [c] is its only
    channel, [open] ends with the [ValueError] of [splitTrigger];
    otherwise [open] returns the trigger row as it was read, and the
    other channels with every sample divided by 10^6, and the instance
    then holds that same scaled recording as both [__gdf] and [__eeg]. *)
Theorem open_scales_and_splits
    (Path : string -> PurePath) (read_raw_gdf : string -> result Raw)
    (rename_channels : Raw -> list (string * string) -> result Raw)
    (EE385VMatFile_load : string -> result EE385VMatFile)
    (self : EEG) (filepath gdf_path mat_path : string)
    (channel_names : option (list (string * string)))
    (gdf0 gdf : Raw) (mat : EE385VMatFile) (c : string)
    (pre post : list string) (row : list Qc) (dpre dpost : list (list Qc)) :
  let path := Path filepath in
  (suffix path = ".gdf"%string /\ gdf_path = filepath /\
   mat_path = (parent path ++ "/" ++ stem path ++ ".mat")%string) \/
  (suffix path = ".mat"%string /\ mat_path = filepath /\
   gdf_path = (parent path ++ "/" ++ stem path ++ ".gdf")%string) ->
  read_raw_gdf gdf_path = Ok gdf0 ->
  (if truthy channel_names
   then rename_channels gdf0 (default [] channel_names) else Ok gdf0) = Ok gdf ->
  EE385VMatFile_load mat_path = Ok mat ->
  ch_names gdf = pre ++ c :: post ->
  _data gdf = dpre ++ row :: dpost ->
  length dpre = length pre -> length dpost = length post ->
  ~ In c pre -> ~ In c post ->
  (forall n : string, In n pre -> contains "trigger" n = false) ->
  contains "trigger" c = true ->
  match pre ++ post with
  | [] =>
      open Path read_raw_gdf rename_channels EE385VMatFile_load self filepath
        channel_names = Raise ValueError
  | _ :: _ =>
      exists eeg : Raw,
        open Path read_raw_gdf rename_channels EE385VMatFile_load self filepath
          channel_names =
        Ok ((eeg, [row], mat),
            {| __gdf := Some eeg; __mat := Some mat;
               __eeg := Some eeg; __trigger := Some [row] |}) /\
        ch_names eeg = pre ++ post /\
        _data eeg =
          map (map (fun x => (x / of_Z 1000000)%Qc)) (dpre ++ dpost) /\
        annotations eeg = annotations gdf /\
        sfreq eeg = sfreq gdf
  end.
Proof.
  intros path Hpath Hread Hren Hload Hn Hd Hlpre Hlpost Hpre Hpost Hno Hc.
  destruct (split_channel gdf c pre post row dpre dpost Hn Hd Hlpre Hlpost
              Hpre Hpost) as (Hpick & Hdrop).
  assert (Hrec : open_recording Path read_raw_gdf rename_channels filepath
                   channel_names = Ok (gdf, mat_path)).
  { unfold open_recording. fold path.
    destruct Hpath as [(Hs & -> & ->)|(Hs & -> & ->)]; rewrite Hs.
    - cbn -[String.append]. rewrite Hread. cbn -[String.append].
      rewrite Hren. reflexivity.
    - cbn -[String.append]. rewrite Hread. cbn -[String.append].
      rewrite Hren. reflexivity. }
  unfold open. rewrite Hrec. cbn [mbind result_bind].
  rewrite (splitTrigger_at_first
             {| __gdf := Some gdf; __mat := __mat self;
                __eeg := __eeg self; __trigger := __trigger self |}
             gdf "trigger" c pre post eq_refl Hn Hno Hc).
  rewrite Hpick, Hdrop. destruct (pre ++ post) as [|n others]; [reflexivity|].
  cbn [mbind result_bind]. rewrite Hload. cbn [mbind result_bind].
  eexists. split; [reflexivity|]. unfold apply_function.
  cbn [ch_names _data annotations sfreq]. repeat split.
Qed.

Lemma splitTrigger_first_match_witness :
  (exists (data_no_trigger : Raw) (self' : EEG),
     splitTrigger Cases.self "trigger" =
       Ok (Some (data_no_trigger, [[of_Z 7; of_Z 7]]), self') /\
     __gdf self' = Some data_no_trigger /\
     __mat self' = __mat Cases.self /\
     ch_names data_no_trigger = ["eeg:1"%string] ++ ["eeg:2"%string] /\
     _data data_no_trigger =
       [[of_Z 1000000; of_Z 2000000]] ++ [[of_Z 3000000; of_Z 4000000]] /\
     annotations data_no_trigger = annotations Cases.triggered /\
     sfreq data_no_trigger = sfreq Cases.triggered) /\
  splitTrigger Cases.self_trigger_only "trigger" = Raise ValueError.
Proof.
  split;
    [|refine (splitTrigger_first_match Cases.self_trigger_only
                Cases.trigger_only "trigger" "trigger:1" [] []
                [of_Z 7; of_Z 7] [] [] _ _ _ _ _ _ _ _ _);
      try reflexivity; [intros []|intros []|intros n []]].
  refine (splitTrigger_first_match Cases.self Cases.triggered "trigger"
            "trigger:1" ["eeg:1"%string] ["eeg:2"%string] [of_Z 7; of_Z 7]
            [[of_Z 1000000; of_Z 2000000]] [[of_Z 3000000; of_Z 4000000]]
            _ _ _ _ _ _ _ _ _);
    try reflexivity.
  - intros [H|[]]. discriminate H.
  - intros [H|[]]. discriminate H.
  - intros n [<-|[]]. reflexivity.
Defined.

Lemma open_other_suffix_witness :
  open Cases.Path_txt Cases.read_raw_gdf Example.rename_channels
    Example.EE385VMatFile_load __init__ "data/notes.txt" None = Raise IOError.
Proof.
  apply (open_other_suffix Cases.Path_txt Cases.read_raw_gdf
           Example.rename_channels Example.EE385VMatFile_load __init__
           "data/notes.txt" None); discriminate.
Defined.

Lemma open_scales_and_splits_witness :
  (exists eeg : Raw,
     open Cases.Path_mat Cases.read_raw_gdf Example.rename_channels
       Example.EE385VMatFile_load __init__ "data/subject1.mat" None =
     Ok ((eeg, [[of_Z 7; of_Z 7]], Example.mat),
         {| __gdf := Some eeg; __mat := Some Example.mat;
            __eeg := Some eeg; __trigger := Some [[of_Z 7; of_Z 7]] |}) /\
     ch_names eeg = ["eeg:1"%string] ++ ["eeg:2"%string] /\
     _data eeg =
       map (map (fun x => (x / of_Z 1000000)%Qc))
           ([[of_Z 1000000; of_Z 2000000]] ++ [[of_Z 3000000; of_Z 4000000]]) /\
     annotations eeg = annotations Cases.triggered /\
     sfreq eeg = sfreq Cases.triggered) /\
  open Cases.Path_mat Cases.read_trigger_only Example.rename_channels
    Example.EE385VMatFile_load __init__ "data/subject1.mat" None =
  Raise ValueError.
Proof.
  split;
    [|refine (open_scales_and_splits Cases.Path_mat Cases.read_trigger_only
                Example.rename_channels Example.EE385VMatFile_load __init__
                "data/subject1.mat" "data/subject1.gdf" "data/subject1.mat"
                None Cases.trigger_only Cases.trigger_only Example.mat
                "trigger:1" [] [] [of_Z 7; of_Z 7] [] [] _ _ _ _ _ _ _ _ _ _ _ _);
      try reflexivity;
      [right; repeat split|intros []|intros []|intros n []]].
  refine (open_scales_and_splits Cases.Path_mat Cases.read_raw_gdf
            Example.rename_channels Example.EE385VMatFile_load __init__
            "data/subject1.mat" "data/subject1.gdf" "data/subject1.mat" None
            Cases.triggered Cases.triggered Example.mat "trigger:1"
            ["eeg:1"%string] ["eeg:2"%string] [of_Z 7; of_Z 7]
            [[of_Z 1000000; of_Z 2000000]] [[of_Z 3000000; of_Z 4000000]]
            _ _ _ _ _ _ _ _ _ _ _ _);
    try reflexivity.
  - right. repeat split.
  - intros [H|[]]. discriminate H.
  - intros [H|[]]. discriminate H.
  - intros n [<-|[]]. reflexivity.
Defined.

(** ** Times to sample indices *)

Lemma of_Z_le (k : Z) (q : Qc) : (of_Z k <= q)%Qc <-> (inject_Z k <= q)%Q.
Proof. unfold Qcle, of_Z. cbn [this Q2Qc]. now rewrite Qred_correct. Qed.

Lemma lt_of_Z (k : Z) (q : Qc) : (q < of_Z k)%Qc <-> (q < inject_Z k)%Q.
Proof. unfold Qclt, of_Z. cbn [this Q2Qc]. now rewrite Qred_correct. Qed.

Lemma of_Z_plus_1 (k : Z) : (of_Z k + 1)%Qc = of_Z (k + 1).
Proof.
  unfold of_Z. apply Qc_is_canon. cbn [this Qcplus Q2Qc].
  rewrite !Qred_correct. now rewrite inject_Z_plus.
Qed.

(** [int] of a number that is not negative is its floor. *)
Lemma int_floor (q : Qc) : (0 <= q)%Qc -> Py.int q = Qfloor q.
Proof.
  intros H. unfold Py.int. destruct q as [[n d] Hc]. cbn [this Qnum Qden Qfloor].
  apply Z.quot_div_nonneg; [|lia].
  unfold Qcle, Qle in H. cbn in H.
  change (Qred 0) with (0 # 1) in H. cbn in H. lia.
Qed.

(** X5.  [timeArrayToSampleArray] keeps the order of the times and turns
    a time [t] into the floor of [t*fs], when [t*fs] is not negative and
    below 2^64: the index [k] it gives satisfies [k <= t*fs < k+1], and is
    [t*fs] itself when that is a whole number. *)
Theorem timeArrayToSampleArray_floor (time : list Qc) (fs : Qc) (i : nat) (t : Qc) :
  time !! i = Some t ->
  (0 <= timeToSample t fs)%Qc -> (timeToSample t fs < of_Z (2 ^ 64))%Qc ->
  exists k : Z,
    timeArrayToSampleArray time fs !! i = Some k /\
    (0 <= k < 2 ^ 64)%Z /\
    (of_Z k <= timeToSample t fs)%Qc /\ (timeToSample t fs < of_Z k + 1)%Qc /\
    forall k0 : Z, timeToSample t fs = of_Z k0 -> k = k0.
Proof.
  intros Ht H0 Hmax. set (q := timeToSample t fs) in *.
  assert (Hlo : (inject_Z (Qfloor q) <= q)%Q) by apply Qfloor_le.
  assert (Hhi : (q < inject_Z (Qfloor q + 1))%Q) by apply Qlt_floor.
  assert (Hk0 : (0 <= Qfloor q)%Z).
  { change 0%Z with (Qfloor 0). apply Qfloor_resp_le. exact H0. }
  assert (Hk1 : (Qfloor q < 2 ^ 64)%Z).
  { apply lt_of_Z in Hmax. rewrite Zlt_Qlt.
    eapply Qle_lt_trans; [exact Hlo|exact Hmax]. }
  exists (Qfloor q). split; [|split; [lia|split; [|split]]].
  - unfold timeArrayToSampleArray.
    change (map ?f time) with (f <$> time). rewrite list_lookup_fmap, Ht.
    change (Some (astype_uint q) = Some (Qfloor q)).
    unfold astype_uint. rewrite (int_floor q H0).
    f_equal. apply Z.mod_small. lia.
  - now apply of_Z_le.
  - rewrite of_Z_plus_1. now apply lt_of_Z.
  - intros k0 Hq. remember (Qfloor q) as k eqn:Ek. clear Ek.
    rewrite Hq in Hlo, Hhi.
    unfold of_Z in Hlo, Hhi. cbn [this Q2Qc] in Hlo, Hhi.
    rewrite Qred_correct in Hlo, Hhi.
    rewrite <- Zle_Qle in Hlo. rewrite <- Zlt_Qlt in Hhi. lia.
Qed.

Lemma timeArrayToSampleArray_floor_witness :
  exists k : Z,
    timeArrayToSampleArray [Example.q 1 1; Example.q 7 2] (Example.q 1000 3) !! 1
      = Some k /\
    (0 <= k < 2 ^ 64)%Z /\
    (of_Z k <= timeToSample (Example.q 7 2) (Example.q 1000 3))%Qc /\
    (timeToSample (Example.q 7 2) (Example.q 1000 3) < of_Z k + 1)%Qc /\
    forall k0 : Z,
      timeToSample (Example.q 7 2) (Example.q 1000 3) = of_Z k0 -> k = k0.
Proof.
  apply (timeArrayToSampleArray_floor [Example.q 1 1; Example.q 7 2]
           (Example.q 1000 3) 1 (Example.q 7 2)).
  - reflexivity.
  - vm_compute. discriminate.
  - vm_compute. reflexivity.
Defined.

(** ** getEEGTrials: labels and onsets that do not match up *)

Lemma for_each_app {A S : Type} (body : S -> A -> result S) (l1 l2 : list A) :
  forall s : S,
    for_each body (l1 ++ l2) s = (s' ← for_each body l1 s; for_each body l2 s').
Proof.
  induction l1 as [|a l1 IH]; intros s; cbn; [reflexivity|].
  destruct (body s a) as [s1|e]; cbn; [apply IH|reflexivity].
Qed.

Lemma for_each_ext {A S : Type} (f g : S -> A -> result S) (l : list A) :
  (forall s a, f s a = g s a) ->
  forall s : S, for_each f l s = for_each g l s.
Proof.
  intros Hfg. induction l as [|a l IH]; intros s; cbn; [reflexivity|].
  rewrite Hfg. destruct (g s a); cbn; [apply IH|reflexivity].
Qed.

Lemma getEEGTrials_body_no_label (L : getEEGTrials_locals) (error : ErrorLabel)
    (offset : bool) (offset_value : Qc) (plot : bool)
    (gdf_array : option Volume) (x : nat) :
  length (error_array L) <= x ->
  getEEGTrials_body L error offset offset_value plot gdf_array x =
    Raise IndexError.
Proof.
  intros Hx. unfold getEEGTrials_body, getitem.
  now rewrite (lookup_ge_None_2 (error_array L) x Hx).
Qed.

(** X6.  When the trimmed annotations outnumber the labels (the state
    matrix or the action sequence is shorter than the annotations
    suggest), [getEEGTrials] does not truncate: it raises [IndexError]
    when it reads the label of the first onset without one, whatever the
    other arguments. *)
Theorem getEEGTrials_more_onsets_than_labels (self : EEG) (pretime posttime : Qc)
    (error : ErrorLabel) (gdf : option Raw) (offset : bool) (offset_value : Qc)
    (plot : bool) (plot_trigger : Z) (L : getEEGTrials_locals) (g : Raw) :
  getEEGTrials_prologue self pretime posttime gdf = Ok L ->
  gdf_use L = Some g ->
  length (error_array L) < length (time L) ->
  getEEGTrials self pretime posttime error gdf offset offset_value plot
    plot_trigger = Raise IndexError.
Proof.
  intros HL Huse Hlen. unfold getEEGTrials. rewrite HL.
  cbn [mbind result_bind]. unfold range.
  replace (length (time L))
    with (length (error_array L) + S (length (time L) - S (length (error_array L))))
    by lia.
  rewrite seq_app, for_each_app.
  rewrite (getEEGTrials_loop L g error offset offset_value plot Huse) by lia.
  cbn [mbind result_bind seq for_each].
  rewrite getEEGTrials_body_no_label by lia. reflexivity.
Qed.

(** ** getEEGTrials: the plot and the offsets *)

(** X7.  Asking for the plot also adds the per-channel offsets to the
    data returned: whenever a call with [plot = True] returns, the same
    call with [offset = True] and no plot returns the same volume. *)
Theorem getEEGTrials_plot_adds_offsets (self : EEG) (pretime posttime : Qc)
    (error : ErrorLabel) (gdf : option Raw) (offset : bool) (offset_value : Qc)
    (plot_trigger plot_trigger' : Z) (out : option Volume) :
  getEEGTrials self pretime posttime error gdf offset offset_value true
    plot_trigger = Ok out ->
  getEEGTrials self pretime posttime error gdf true offset_value false
    plot_trigger' = Ok out.
Proof.
  unfold getEEGTrials.
  destruct (getEEGTrials_prologue self pretime posttime gdf) as [L|e];
    [|discriminate].
  cbn [mbind result_bind].
  rewrite (for_each_ext (getEEGTrials_body L error offset offset_value true)
             (getEEGTrials_body L error true offset_value false)).
  - destruct (for_each _ _ None) as [gdf_array|e]; [|discriminate].
    cbn [mbind result_bind]. destruct gdf_array as [a|]; [|discriminate].
    destruct (getitem_Z a plot_trigger); cbn; congruence.
  - intros s x. unfold getEEGTrials_body. reflexivity.
Qed.

(** ** getEEGTrials: the requested label *)

Lemma filter_none {A : Type} (f : A -> bool) (l : list A) :
  (forall x, In x l -> f x = false) -> List.filter f l = [].
Proof.
  induction l as [|a l IH]; intros H; cbn; [reflexivity|].
  rewrite (H a) by now left. apply IH. intros x Hx. apply H. now right.
Qed.

Lemma filter_length_split {A : Type} (f g h : A -> bool) (l : list A) :
  (forall x, In x l -> h x = f x || g x) ->
  (forall x, In x l -> f x && g x = false) ->
  length (List.filter f l) + length (List.filter g l) = length (List.filter h l).
Proof.
  induction l as [|a l IH]; intros Hh Hfg; cbn; [reflexivity|].
  assert (IH' : length (List.filter f l) + length (List.filter g l) =
                length (List.filter h l)).
  { apply IH; intros x Hx; [apply Hh|apply Hfg]; now right. }
  pose proof (Hh a (or_introl eq_refl)) as Ha.
  pose proof (Hfg a (or_introl eq_refl)) as Hb.
  destruct (f a), (g a), (h a); cbn in *; try discriminate; lia.
Qed.

(** X8.  Trials labelled [np.NaN] cannot be extracted: with [error =
    np.NaN] no trial is kept, so the call returns [None] without the
    plot and raises [TypeError] with it. *)
Theorem getEEGTrials_NaN_requested (self : EEG) (pretime posttime : Qc)
    (gdf : option Raw) (offset : bool) (offset_value : Qc)
    (plot : bool) (plot_trigger : Z) (L : getEEGTrials_locals) (g : Raw) :
  getEEGTrials_prologue self pretime posttime gdf = Ok L ->
  gdf_use L = Some g ->
  length (time L) <= length (error_array L) ->
  getEEGTrials self pretime posttime NaN gdf offset offset_value plot
    plot_trigger = if plot then Raise TypeError else Ok None.
Proof.
  intros HL Huse Hlen.
  rewrite (getEEGTrials_spec _ _ _ _ _ _ _ _ _ L g HL Huse Hlen). cbn zeta.
  rewrite filter_none; [reflexivity|].
  intros x _. destruct (kept L g NaN x) eqn:E; [|reflexivity].
  apply kept_true in E. destruct E as (t & _ & _ & Hn & _). congruence.
Qed.

(** X9.  The error volume and the no-error volume share no trial and
    miss none: without the plot, the calls with [error = True] and with
    [error = False] both return, and their trial counts add up to the
    number of trials whose label is not [np.NaN] and whose window has the
    full length. *)
Theorem getEEGTrials_error_and_no_error (self : EEG) (pretime posttime : Qc)
    (gdf : option Raw) (offset : bool) (offset_value : Qc)
    (plot_trigger : Z) (L : getEEGTrials_locals) (g : Raw) :
  getEEGTrials_prologue self pretime posttime gdf = Ok L ->
  gdf_use L = Some g ->
  length (time L) <= length (error_array L) ->
  exists outT outF : option Volume,
    getEEGTrials self pretime posttime LTrue gdf offset offset_value false
      plot_trigger = Ok outT /\
    getEEGTrials self pretime posttime LFalse gdf offset offset_value false
      plot_trigger = Ok outF /\
    length (default [] outT) + length (default [] outF) =
      length (List.filter
                (fun x => match error_array L !! x, time L !! x with
                          | Some e, Some t =>
                              is_not_NaN e && full_window L (window L g t)
                          | _, _ => false
                          end)
                (range (length (time L)))).
Proof.
  intros HL Huse Hlen.
  eexists. eexists. split; [|split].
  - rewrite (getEEGTrials_spec _ _ _ _ _ _ _ _ _ L g HL Huse Hlen). reflexivity.
  - rewrite (getEEGTrials_spec _ _ _ _ _ _ _ _ _ L g HL Huse Hlen). reflexivity.
  - rewrite !stack_None, !length_map. apply filter_length_split.
    + intros x _. unfold kept.
      destruct (error_array L !! x) as [[| |]|]; destruct (time L !! x);
        cbn; try reflexivity; now rewrite ?orb_false_r.
    + intros x _. unfold kept.
      destruct (error_array L !! x) as [[| |]|]; destruct (time L !! x);
        cbn; try reflexivity; now rewrite ?andb_false_r.
Qed.

(** ** getEEGTrials: where a window lies in the recording *)

Lemma this_of_Z (z : Z) : this (of_Z z) = inject_Z z.
Proof.
  unfold of_Z. cbn [this Q2Qc]. apply Qred_identity. cbn. apply Z.gcd_1_r.
Qed.

Lemma int_of_Z (z : Z) : Py.int (of_Z z) = z.
Proof. unfold Py.int. rewrite this_of_Z. cbn. apply Z.quot_1_r. Qed.

Lemma of_Z_plus (a b : Z) : (of_Z a + of_Z b)%Qc = of_Z (a + b).
Proof.
  unfold of_Z. apply Qc_is_canon. cbn [this Qcplus Q2Qc].
  rewrite !Qred_correct. now rewrite inject_Z_plus.
Qed.

Lemma of_Z_mult (a b : Z) : (of_Z a * of_Z b)%Qc = of_Z (a * b).
Proof.
  unfold of_Z. apply Qc_is_canon. cbn [this Qcmult Q2Qc].
  rewrite !Qred_correct. now rewrite inject_Z_mult.
Qed.

Lemma of_Z_inj (a b : Z) : of_Z a = of_Z b -> a = b.
Proof.
  intros H. apply (f_equal this) in H. rewrite !this_of_Z in H.
  now injection H.
Qed.

(** The window of onset [t] when the pre and post sample counts are the
    whole numbers [pre] and [post]. *)
Lemma window_whole (L : getEEGTrials_locals) (g : Raw) (t pre post : Z) :
  pretime_s L = of_Z (- pre) -> posttime_s L = of_Z post ->
  window L g t = get_data g (t - pre) (t + post) /\
  (pretime_s L * of_Z (-1) + posttime_s L)%Qc = of_Z (pre + post).
Proof.
  intros Hpre Hpost. unfold window. rewrite Hpre, Hpost.
  rewrite !of_Z_plus, !int_of_Z, of_Z_mult, of_Z_plus.
  split; f_equal; lia.
Qed.

Lemma full_window_iff (L : getEEGTrials_locals) (w : Slice) (W : Z) :
  (pretime_s L * of_Z (-1) + posttime_s L)%Qc = of_Z W ->
  full_window L w = true <-> Z.of_nat (shape1 w) = W.
Proof.
  intros HW. unfold full_window. rewrite HW. unfold of_nat. split.
  - intros H. apply Qc_eq_bool_correct in H. now apply of_Z_inj.
  - intros <-. unfold Qc_eq_bool.
    destruct (Qcanon.Qc_eq_dec (of_Z (Z.of_nat (shape1 w)))
                (of_Z (Z.of_nat (shape1 w))));
      [reflexivity|congruence].
Qed.

(** [l[s:e]] inside the bounds of [l]. *)
Lemma slice_in_bounds {A : Type} (l : list A) (s e : Z) :
  (0 <= s <= e)%Z -> (e <= Z.of_nat (length l))%Z ->
  slice (Some s) (Some e) l = take (Z.to_nat (e - s)) (drop (Z.to_nat s) l).
Proof.
  intros Hs He. unfold slice. cbn [from_option]. unfold norm.
  destruct (Z.ltb_spec s 0); [lia|]. destruct (Z.ltb_spec e 0); [lia|].
  f_equal; [lia|f_equal; lia].
Qed.

(** The length of [l[s:e]] when it reaches outside [l] on one side, [e]
    not being negative: never [e - s]. *)
Lemma slice_out_of_bounds {A : Type} (l : list A) (s e : Z) :
  (s < e)%Z -> (0 <= e)%Z -> (s < 0 \/ Z.of_nat (length l) < e)%Z ->
  Z.of_nat (length (slice (Some s) (Some (Z.min e (Z.of_nat (length l)))) l))
    <> (e - s)%Z.
Proof.
  intros Hse He Hout. unfold slice. cbn [from_option].
  rewrite length_take, length_drop. unfold norm.
  destruct (Z.ltb_spec s 0);
    destruct (Z.ltb_spec (Z.min e (Z.of_nat (length l))) 0); lia.
Qed.

(** X10.  When the pre and post sample counts are whole numbers [pre]
    and [post] and the bounds [t - pre] and [t + post] lie inside the
    recording, the window of a trial with onset sample [t] passes the
    length check and holds, for every channel, exactly the [pre + post]
    samples from [t - pre] up to [t + post] (excluded). *)
Theorem getEEGTrials_window_inside (L : getEEGTrials_locals) (g : Raw)
    (t pre post : Z) :
  pretime_s L = of_Z (- pre) -> posttime_s L = of_Z post ->
  rectangular (_data g) -> _data g <> [] ->
  (0 <= t - pre <= t + post)%Z -> (t + post <= Z.of_nat (n_times g))%Z ->
  window L g t =
    map (fun row => take (Z.to_nat (pre + post)) (drop (Z.to_nat (t - pre)) row))
        (_data g) /\
  full_window L (window L g t) = true.
Proof.
  intros Hpre Hpost Hrect Hne Hlo Hhi.
  destruct (window_whole L g t pre post Hpre Hpost) as [Hw HW].
  assert (Hcontent : window L g t =
            map (fun row => take (Z.to_nat (pre + post))
                                 (drop (Z.to_nat (t - pre)) row)) (_data g)).
  { rewrite Hw. unfold get_data, cols. apply map_ext_in. intros row Hrow.
    unfold rectangular in Hrect. rewrite List.Forall_forall in Hrect.
    rewrite Z.min_l by lia.
    rewrite slice_in_bounds; [f_equal; lia|lia|].
    rewrite (Hrect row Hrow). exact Hhi. }
  split; [exact Hcontent|].
  apply (full_window_iff L _ (pre + post) HW). rewrite Hcontent.
  destruct (_data g) as [|r rows] eqn:E; [congruence|].
  cbn [map shape1]. rewrite length_take, length_drop.
  unfold n_times in Hhi. rewrite E in Hhi. cbn [shape1] in Hhi. lia.
Qed.

(** X11.  A window that reaches before the start or past the end of the
    recording is never kept: with whole sample counts [pre] and [post],
    [pre + post > 0], and [t + post] not negative, the window of onset
    sample [t] fails the length check as soon as [t - pre < 0] or
    [t + post] exceeds the number of samples (a negative start is not
    taken from the end of the recording into the volume). *)
Theorem getEEGTrials_window_outside (L : getEEGTrials_locals) (g : Raw)
    (t pre post : Z) :
  pretime_s L = of_Z (- pre) -> posttime_s L = of_Z post ->
  (0 < pre + post)%Z -> (0 <= t + post)%Z ->
  (t - pre < 0 \/ Z.of_nat (n_times g) < t + post)%Z ->
  full_window L (window L g t) = false /\
  forall (error : ErrorLabel) (x : nat),
    time L !! x = Some t -> kept L g error x = false.
Proof.
  intros Hpre Hpost HW0 Hstop Hout.
  destruct (window_whole L g t pre post Hpre Hpost) as [Hw HW].
  assert (Hfull : full_window L (window L g t) = false).
  { destruct (full_window L (window L g t)) eqn:E; [|reflexivity].
    apply (full_window_iff L _ (pre + post) HW) in E. rewrite Hw in E.
    unfold get_data, cols, n_times in *.
    destruct (_data g) as [|r rows]; cbn [map shape1] in *; [lia|].
    exfalso. apply (slice_out_of_bounds r (t - pre) (t + post)); try lia. }
  split; [exact Hfull|].
  intros error x Hx. unfold kept. rewrite Hx.
  destruct (error_array L !! x); [|reflexivity].
  rewrite Hfull. now rewrite andb_false_r.
Qed.

(** ** CARFilter: what the filter removes *)

Lemma nth_zip_with_plus (r a : list Qc) (j : nat) :
  j < length r -> j < length a ->
  nth j (zip_with Qcplus r a) 0%Qc = (nth j r 0 + nth j a 0)%Qc.
Proof.
  revert a j. induction r as [|x r IH]; intros [|y a] [|j] Hr Ha;
    cbn in *; try lia; [reflexivity|]. apply IH; lia.
Qed.

Lemma sum_added {A : Type} (g : A -> Qc) (a : Qc) (l : list A) :
  sum (map (fun x => (g x + a)%Qc) l) = (sum (map g l) + of_nat (length l) * a)%Qc.
Proof.
  induction l as [|x l IH].
  - cbn. change (of_nat 0) with 0%Qc. ring.
  - cbn [map sum foldr length]. fold (sum (map (fun x => (g x + a)%Qc) l)).
    fold (sum (map g l)). rewrite IH, of_nat_S. ring.
Qed.

(** A signal [g] added to every channel of a slice leaves [car] of the
    slice as it was. *)
Lemma car_common_signal (s : list (list Qc)) (g : list Qc) (S : nat) :
  Forall (fun row => length row = S) s -> length g = S ->
  car (map (fun row => zip_with Qcplus row g) s) = car s.
Proof.
  intros Hrows Hg. destruct s as [|r0 s0] eqn:E; [reflexivity|]. rewrite <- E in *.
  assert (Hc : 0 < length s) by (rewrite E; cbn; lia).
  set (s' := map (fun row => zip_with Qcplus row g) s).
  assert (Hrows' : Forall (fun row => length row = S) s').
  { apply List.Forall_forall. intros row' Hin. apply in_map_iff in Hin.
    destruct Hin as (row & <- & Hrow). rewrite List.Forall_forall in Hrows.
    rewrite length_zip_with, (Hrows row Hrow). lia. }
  assert (Hs : shape1 s = S) by (apply uniform_shape1; [exact Hrows|congruence]).
  assert (Hs' : shape1 s' = S).
  { apply uniform_shape1; [exact Hrows'|]. unfold s'. rewrite E. discriminate. }
  assert (Hmean : forall j, j < S ->
             mean (column s' j) = (mean (column s j) + nth j g 0)%Qc).
  { intros j Hj. unfold mean, column, s'. rewrite map_map, !length_map.
    rewrite (map_ext_in _ (fun row => (nth j row 0 + nth j g 0)%Qc)).
    - rewrite (sum_added (fun row => nth j row 0%Qc)).
      pose proof (of_nat_nonzero (length s) Hc) as Hnz. field. exact Hnz.
    - intros row Hrow. rewrite List.Forall_forall in Hrows.
      apply nth_zip_with_plus; [rewrite (Hrows row Hrow)|]; lia. }
  change (map (fun row => zip_with Qcminus row (mean_axis0 s'))
              (map (fun row => zip_with Qcplus row g) s) =
          map (fun row => zip_with Qcminus row (mean_axis0 s)) s).
  rewrite map_map. apply map_ext_in. intros row Hrow.
  rewrite List.Forall_forall in Hrows. pose proof (Hrows row Hrow) as Hlen.
  apply (nth_ext _ _ 0%Qc 0%Qc).
  - rewrite !length_zip_with, !mean_axis0_length, Hs, Hs'. lia.
  - intros j Hj.
    rewrite !length_zip_with, mean_axis0_length, Hs' in Hj.
    rewrite !nth_zip_with_minus, nth_zip_with_plus, !mean_axis0_nth, Hmean;
      rewrite ?length_zip_with, ?mean_axis0_length; try lia.
    ring.
Qed.

(** X12.  [CARFilter] removes what the channels have in common: a
    volume and the same volume with one signal [g] added to every channel
    of every trial are filtered to the same values (volumes with [C]
    channels and [S] samples, in the exact arithmetic of the
    embedding). *)
Theorem CARFilter_common_signal (h1 h2 : Heap) (a1 a2 : nat) (v : Volume)
    (g : list Qc) (C S : nat) :
  h1 !! a1 = Some v ->
  h2 !! a2 = Some (map (map (fun row => zip_with Qcplus row g)) v) ->
  well_shaped v C S -> length g = S ->
  exists (f1 f2 : nat) (h1' h2' : Heap) (out : Volume),
    CARFilter a1 h1 = Ok (f1, h1') /\ h1' !! f1 = Some out /\
    CARFilter a2 h2 = Ok (f2, h2') /\ h2' !! f2 = Some out.
Proof.
  intros H1 H2 Hshape Hg.
  exists (length h1), (length h2),
    (<[a1 := map car v]> h1 ++ [map car v]),
    (<[a2 := map car (map (map (fun row => zip_with Qcplus row g)) v)]> h2
       ++ [map car (map (map (fun row => zip_with Qcplus row g)) v)]),
    (map car v).
  split; [now apply CARFilter_spec|]. split; [apply lookup_new_array|].
  split; [now apply CARFilter_spec|].
  rewrite lookup_new_array. f_equal. rewrite map_map. apply map_ext_in.
  intros trial Htrial. unfold well_shaped in Hshape.
  rewrite List.Forall_forall in Hshape. destruct (Hshape trial Htrial) as [_ Hr].
  now apply (car_common_signal trial g S).
Qed.

(** X13.  A volume with a single channel is filtered to zeros: its one
    channel is its own average. *)
Theorem CARFilter_single_channel (h : Heap) (eegVolume : nat) (v : Volume)
    (S : nat) :
  h !! eegVolume = Some v -> well_shaped v 1 S ->
  exists (filtered : nat) (h' : Heap) (out : Volume),
    CARFilter eegVolume h = Ok (filtered, h') /\
    h' !! filtered = Some out /\
    out = map (fun _ => [replicate S 0%Qc]) v.
Proof.
  intros Hv Hshape.
  exists (length h), (<[eegVolume := map car v]> h ++ [map car v]), (map car v).
  split; [now apply CARFilter_spec|]. split; [apply lookup_new_array|].
  apply map_ext_in. intros trial Htrial. unfold well_shaped in Hshape.
  rewrite List.Forall_forall in Hshape. destruct (Hshape trial Htrial) as [Hc Hr].
  destruct trial as [|row [|row2 rest]]; try discriminate.
  apply Forall_inv in Hr.
  unfold car, subtract. cbn [map]. f_equal.
  apply (nth_ext _ _ 0%Qc 0%Qc).
  - rewrite length_zip_with, mean_axis0_length, length_replicate. cbn [shape1]. lia.
  - intros j Hj. rewrite length_zip_with, mean_axis0_length in Hj. cbn [shape1] in Hj.
    rewrite nth_zip_with_minus, mean_axis0_nth;
      rewrite ?mean_axis0_length; cbn [shape1]; try lia.
    rewrite (nth_lookup (replicate S 0%Qc)), lookup_replicate_2 by lia.
    cbn [default from_option].
    unfold mean, column, sum. cbn. change (of_nat 1) with 1%Qc. field.
    discriminate.
Qed.

(** ** Grand average and grand variance *)

Lemma sum_div {A : Type} (f : A -> Qc) (k : Qc) (l : list A) :
  sum (map (fun a => (f a / k)%Qc) l) = (sum (map f l) / k)%Qc.
Proof.
  unfold Qcdiv. induction l as [|a l IH]; cbn [map sum foldr]; [ring|].
  fold (sum (map (fun a => (f a * / k)%Qc) l)). fold (sum (map f l)).
  rewrite IH. ring.
Qed.

Lemma sum_minus {A : Type} (f g : A -> Qc) (l : list A) :
  sum (map (fun a => (f a - g a)%Qc) l) = (sum (map f l) - sum (map g l))%Qc.
Proof.
  induction l as [|a l IH]; cbn [map sum foldr]; [ring|].
  fold (sum (map (fun a => (f a - g a)%Qc) l)).
  fold (sum (map f l)). fold (sum (map g l)). rewrite IH. ring.
Qed.

Lemma sum_zero {A : Type} (l : list A) : sum (map (fun _ => 0%Qc) l) = 0%Qc.
Proof.
  induction l as [|a l IH]; cbn [map sum foldr]; [reflexivity|].
  fold (sum (map (fun _ : A => 0%Qc) l)). rewrite IH. ring.
Qed.

Lemma sum_exchange {A B : Type} (F : A -> B -> Qc) (ts : list A) (cs : list B) :
  sum (map (fun c => sum (map (fun t => F t c) ts)) cs) =
  sum (map (fun t => sum (map (fun c => F t c) cs)) ts).
Proof.
  induction ts as [|t ts IH].
  - cbn [map sum foldr]. apply sum_zero.
  - cbn [map sum foldr].
    fold (sum (map (fun t => sum (map (fun c => F t c) cs)) ts)).
    rewrite <- IH. clear IH.
    induction cs as [|c cs IHc]; cbn [map sum foldr]; [ring|].
    fold (sum (map (fun t0 => F t0 c) ts)).
    fold (sum (map (fun c0 => F t c0) cs)).
    fold (sum (map (fun c0 => sum (map (fun t0 => F t0 c0) ts)) cs)).
    fold (sum (map (fun c0 => foldr Qcplus 0%Qc (F t c0 :: map (fun t0 => F t0 c0) ts)) cs)).
    cbn [foldr] in IHc |- *.
    change (foldr Qcplus 0%Qc) with sum in IHc |- *.
    rewrite IHc. ring.
Qed.

Lemma map_nth_seq {A B : Type} (F : A -> B) (d : A) (l : list A) :
  map (fun c => F (nth c l d)) (seq 0 (length l)) = map F l.
Proof.
  induction l as [|a l IH]; [reflexivity|].
  cbn [length seq map nth]. f_equal.
  rewrite <- seq_shift, map_map. exact IH.
Qed.

(** The shape of a volume with a trial and a channel. *)
Lemma well_shaped_dims (v : Volume) (C S : nat) :
  well_shaped v C S -> v <> [] -> 0 < C ->
  volume_channels v = C /\ volume_samples v = S.
Proof.
  intros H Hne HC. destruct v as [|t v]; [congruence|].
  apply Forall_inv in H. destruct H as [Hc Hr]. cbn. split; [exact Hc|].
  apply uniform_shape1; [exact Hr|]. intros ->. cbn in Hc. lia.
Qed.

(** The entries of the grand average and of the grand variance. *)
Lemma grandAverage_nth (v : Volume) (c s : nat) :
  c < volume_channels v -> s < volume_samples v ->
  nth s (nth c (grandAverage v) []) 0%Qc = mean (across_trials v c s).
Proof.
  intros Hc Hs. unfold grandAverage, range.
  rewrite (nth_map_seq _ [] _ 0 c Hc). now rewrite (nth_map_seq _ 0%Qc _ 0 s Hs).
Qed.

Lemma grandAverage_shape (v : Volume) :
  length (grandAverage v) = volume_channels v /\
  Forall (fun row => length row = volume_samples v) (grandAverage v).
Proof.
  unfold grandAverage, range. split.
  - now rewrite length_map, length_seq.
  - apply List.Forall_forall. intros row Hin. apply in_map_iff in Hin.
    destruct Hin as (c & <- & _). now rewrite length_map, length_seq.
Qed.

(** An entry of [car trial]. *)
Lemma car_nth (trial : list (list Qc)) (S c s : nat) :
  Forall (fun row => length row = S) trial -> c < length trial -> s < S ->
  nth s (nth c (car trial) []) 0%Qc =
    (nth s (nth c trial []) 0 - mean (column trial s))%Qc.
Proof.
  intros Hrows Hc Hs.
  assert (Hshape : shape1 trial = S).
  { apply uniform_shape1; [exact Hrows|]. intros ->. cbn in Hc. lia. }
  unfold car, subtract.
  replace (@nil Qc) with (zip_with Qcminus [] (mean_axis0 trial)) at 1
    by reflexivity.
  rewrite (map_nth (fun row => zip_with Qcminus row (mean_axis0 trial))).
  rewrite List.Forall_forall in Hrows.
  assert (Hlen : length (nth c trial []) = S)
    by (apply Hrows, nth_In; exact Hc).
  rewrite nth_zip_with_minus, mean_axis0_nth; rewrite ?mean_axis0_length;
    try lia.
  reflexivity.
Qed.

(** Averaging over trials and referencing to the channel average can be
    done in either order. *)
Lemma grandAverage_car (v : Volume) (C S : nat) :
  well_shaped v C S -> v <> [] -> 0 < C ->
  grandAverage (map car v) = car (grandAverage v).
Proof.
  intros Hshape Hne HC.
  destruct (well_shaped_dims v C S Hshape Hne HC) as [HCv HSv].
  assert (Hshape' : well_shaped (map car v) C S) by now apply map_car_well_shaped.
  assert (Hne' : map car v <> []) by (destruct v; [congruence|discriminate]).
  destruct (well_shaped_dims _ C S Hshape' Hne' HC) as [HCv' HSv'].
  destruct (grandAverage_shape v) as [HGl HGr]. rewrite HCv in HGl. rewrite HSv in HGr.
  destruct (grandAverage_shape (map car v)) as [HGl' HGr'].
  rewrite HCv' in HGl'. rewrite HSv' in HGr'.
  pose proof (car_rows _ S HGr) as HcGr.
  assert (HT : of_nat (length v) <> 0%Qc).
  { apply of_nat_nonzero. destruct v; [congruence|cbn; lia]. }
  pose proof (of_nat_nonzero C HC) as HCnz.
  unfold well_shaped in Hshape. rewrite List.Forall_forall in Hshape.
  apply (nth_ext _ _ [] []); [now rewrite car_length, HGl, HGl'|].
  intros c Hc. rewrite HGl' in Hc.
  rewrite List.Forall_forall in HGr', HcGr.
  assert (Hrow' : length (nth c (grandAverage (map car v)) []) = S)
    by (apply HGr', nth_In; lia).
  assert (Hrow : length (nth c (car (grandAverage v)) []) = S)
    by (apply HcGr, nth_In; rewrite car_length; lia).
  apply (nth_ext _ _ 0%Qc 0%Qc); [lia|].
  intros s Hs. rewrite Hrow' in Hs.
  rewrite grandAverage_nth by lia.
  rewrite (car_nth (grandAverage v) S c s HGr) by lia.
  rewrite grandAverage_nth by lia.
  (* the entry of the average of the filtered trials *)
  unfold across_trials at 1. rewrite map_map.
  rewrite (map_ext_in _
             (fun trial => (nth s (nth c trial []) 0 - mean (column trial s))%Qc)).
  2:{ intros trial Htrial. destruct (Hshape trial Htrial) as [Hc' Hr'].
      apply (car_nth trial S c s Hr'); lia. }
  unfold mean at 1. rewrite length_map, sum_minus.
  (* the channel average of the grand average *)
  assert (Hcol : column (grandAverage v) s =
                 map (fun c' => (sum (across_trials v c' s) / of_nat (length v))%Qc)
                     (seq 0 C)).
  { unfold column. rewrite <- (map_nth_seq (fun row => nth s row 0%Qc) [] (grandAverage v)).
    rewrite HGl. apply map_ext_in. intros c' Hc'. apply in_seq in Hc'.
    rewrite grandAverage_nth by lia. unfold mean, across_trials.
    now rewrite length_map. }
  unfold mean at 3. rewrite Hcol, length_map, length_seq, sum_div.
  unfold across_trials. rewrite (sum_exchange (fun trial c' => nth s (nth c' trial []) 0%Qc)).
  rewrite (map_ext_in (fun t => sum (map (fun c' => nth s (nth c' t []) 0%Qc) (seq 0 C)))
             (fun t => sum (column t s))).
  2:{ intros trial Htrial. destruct (Hshape trial Htrial) as [Hc' _].
      unfold column. rewrite <- Hc'.
      now rewrite (map_nth_seq (fun row => nth s row 0%Qc) [] trial). }
  rewrite (map_ext_in (fun trial => mean (column trial s))
             (fun trial => (sum (column trial s) / of_nat C)%Qc)).
  2:{ intros trial Htrial. destruct (Hshape trial Htrial) as [Hc' _].
      unfold mean, column. now rewrite length_map, Hc'. }
  rewrite sum_div. unfold mean. rewrite length_map. field. split; assumption.
Qed.

(** X14.  Averaging over trials and common-average referencing can be
    done in either order: the grand average of the volume [CARFilter]
    returns is the grand average of the volume it was given, referenced
    to its channel average; so its mean over the channels is zero at
    every sample point (volumes with a trial, [C >= 1] channels and [S]
    samples; in the exact arithmetic of the embedding). *)
Theorem grandAverage_of_CARFilter (h : Heap) (eegVolume : nat) (v : Volume)
    (C S : nat) :
  h !! eegVolume = Some v -> well_shaped v C S -> v <> [] -> 0 < C ->
  exists (filtered : nat) (h' : Heap) (out : Volume),
    CARFilter eegVolume h = Ok (filtered, h') /\
    h' !! filtered = Some out /\
    grandAverage out = car (grandAverage v) /\
    forall s : nat, s < S -> mean (column (grandAverage out) s) = 0%Qc.
Proof.
  intros Hv Hshape Hne HC.
  exists (length h), (<[eegVolume := map car v]> h ++ [map car v]), (map car v).
  split; [now apply CARFilter_spec|]. split; [apply lookup_new_array|].
  rewrite (grandAverage_car v C S Hshape Hne HC). split; [reflexivity|].
  intros s Hs. destruct (well_shaped_dims v C S Hshape Hne HC) as [HCv HSv].
  destruct (grandAverage_shape v) as [HGl HGr]. rewrite HSv in HGr.
  apply (car_mean_zero (grandAverage v) S s HGr); lia.
Qed.

(** ** Grand statistics: the order of the trials *)

Lemma sum_perm (l l' : list Qc) : Permutation l l' -> sum l = sum l'.
Proof.
  induction 1 as [|x l l' _ IH|x y l|l l' l'' _ IH1 _ IH2];
    cbn [sum foldr] in *; try congruence.
  - fold (sum l). fold (sum l'). now rewrite IH.
  - fold (sum l). ring.
Qed.

Lemma mean_perm (l l' : list Qc) : Permutation l l' -> mean l = mean l'.
Proof.
  intros H. unfold mean. now rewrite (sum_perm l l' H), (Permutation_length H).
Qed.

Lemma var_perm (l l' : list Qc) : Permutation l l' -> var l = var l'.
Proof.
  intros H. unfold var. rewrite (mean_perm l l' H).
  apply mean_perm. now apply Permutation_map.
Qed.

Lemma across_trials_perm (v v' : Volume) (c s : nat) :
  Permutation v v' -> Permutation (across_trials v c s) (across_trials v' c s).
Proof. intros H. unfold across_trials. now apply Permutation_map. Qed.

(** Every trial of a well-shaped volume gives the same two dimensions. *)
Lemma well_shaped_first (v : Volume) (C S : nat) :
  well_shaped v C S -> v <> [] ->
  volume_channels v = C /\
  volume_samples v = match C with 0 => 0 | _ => S end.
Proof.
  intros H Hne. destruct v as [|t v]; [congruence|].
  apply Forall_inv in H. destruct H as [Hc Hr]. cbn. split; [exact Hc|].
  destruct C as [|C].
  - destruct t; [reflexivity|discriminate].
  - apply uniform_shape1; [exact Hr|]. intros ->. discriminate.
Qed.

(** X15.  The grand average and the grand variance do not depend on the
    order of the trials: two volumes with the same trials in another
    order give the same results (in the exact arithmetic of the
    embedding). *)
Theorem grand_statistics_permutation (v v' : Volume) (C S : nat) :
  well_shaped v C S -> Permutation v v' ->
  grandAverage v' = grandAverage v /\ grandVariance v' = grandVariance v.
Proof.
  intros Hshape Hperm.
  destruct v as [|t0 v0] eqn:E.
  { apply Permutation_nil in Hperm. subst v'. split; reflexivity. }
  rewrite <- E in *.
  assert (Hne : v <> []) by (rewrite E; discriminate).
  assert (Hne' : v' <> []).
  { intros ->. apply Permutation_sym, Permutation_nil in Hperm. congruence. }
  assert (Hshape' : well_shaped v' C S).
  { unfold well_shaped in *. now apply (Permutation_Forall Hperm). }
  destruct (well_shaped_first v C S Hshape Hne) as [Hc Hs].
  destruct (well_shaped_first v' C S Hshape' Hne') as [Hc' Hs'].
  unfold grandAverage, grandVariance. rewrite Hc, Hs, Hc', Hs'.
  split; apply map_ext; intros c; apply map_ext; intros s.
  - apply mean_perm, Permutation_sym, across_trials_perm, Hperm.
  - apply var_perm, Permutation_sym, across_trials_perm, Hperm.
Qed.

(** ** Grand variance: sign, and identical trials *)

Lemma square_nonneg (x : Qc) : (0 <= x * x)%Qc.
Proof.
  unfold Qcle, Qcmult. cbn [this Q2Qc]. rewrite !Qred_correct.
  destruct x as [[n d] Hx]. unfold Qle. cbn. nia.
Qed.

Lemma sum_nonneg (l : list Qc) :
  Forall (fun x => (0 <= x)%Qc) l -> (0 <= sum l)%Qc.
Proof.
  induction 1 as [|x l Hx _ IH]; cbn [sum foldr]; [apply Qcle_refl|].
  fold (sum l). replace 0%Qc with (0 + 0)%Qc by ring.
  now apply Qcplus_le_compat.
Qed.

Lemma div_nonneg (a : Qc) (n : nat) : (0 <= a)%Qc -> (0 <= a / of_nat n)%Qc.
Proof.
  intros Ha. unfold Qcdiv, Qcle, Qcmult, Qcinv in *. cbn [this Q2Qc] in *.
  rewrite !Qred_correct. change (Qred 0) with (0 # 1) in *.
  apply Qmult_le_0_compat; [exact Ha|]. apply Qinv_le_0_compat.
  unfold of_nat, of_Z. cbn [this Q2Qc]. rewrite Qred_correct.
  unfold Qle. cbn. lia.
Qed.

Lemma var_nonneg (l : list Qc) : (0 <= var l)%Qc.
Proof.
  unfold var, mean at 1. apply div_nonneg, sum_nonneg.
  apply List.Forall_forall. intros y Hy. apply in_map_iff in Hy.
  destruct Hy as (x & <- & _). apply square_nonneg.
Qed.

(** X16.  No entry of the grand variance is negative, whatever the
    volume. *)
Theorem grandVariance_nonneg (v : Volume) :
  Forall (Forall (fun x => (0 <= x)%Qc)) (grandVariance v).
Proof.
  unfold grandVariance. apply List.Forall_forall. intros row Hrow.
  apply in_map_iff in Hrow. destruct Hrow as (c & <- & _).
  apply List.Forall_forall. intros x Hx. apply in_map_iff in Hx.
  destruct Hx as (s & <- & _). apply var_nonneg.
Qed.

Lemma sum_replicate (n : nat) (x : Qc) :
  sum (replicate n x) = (of_nat n * x)%Qc.
Proof.
  induction n as [|n IH]; cbn [replicate sum foldr].
  - change (of_nat 0) with 0%Qc. ring.
  - fold (sum (replicate n x)). rewrite IH, of_nat_S. ring.
Qed.

Lemma map_replicate_const {A B : Type} (f : A -> B) (n : nat) (x : A) :
  map f (replicate n x) = replicate n (f x).
Proof. induction n as [|n IH]; cbn; [reflexivity|now rewrite IH]. Qed.

Lemma mean_replicate (n : nat) (x : Qc) : 0 < n -> mean (replicate n x) = x.
Proof.
  intros Hn. unfold mean. rewrite sum_replicate, length_replicate.
  pose proof (of_nat_nonzero n Hn). now field.
Qed.

Lemma map_seq_nth {A : Type} (d : A) (l : list A) :
  map (fun i => nth i l d) (seq 0 (length l)) = l.
Proof.
  rewrite (map_nth_seq (fun x => x) d l). apply map_id.
Qed.

Lemma var_replicate (n : nat) (x : Qc) : 0 < n -> var (replicate n x) = 0%Qc.
Proof.
  intros Hn. unfold var. rewrite (mean_replicate n x Hn).
  rewrite (map_replicate_const (fun y => ((y - x) * (y - x))%Qc) n x).
  rewrite (mean_replicate n _ Hn). ring.
Qed.

Lemma map_const {A B : Type} (b : B) (l : list A) :
  map (fun _ => b) l = replicate (length l) b.
Proof. induction l as [|a l IH]; cbn; [reflexivity|now rewrite IH]. Qed.

(** X17.  Of a volume made of [T >= 1] copies of one trial (with
    [C >= 1] channels of [S] samples), the grand average is that trial
    and the grand variance is zero everywhere (in the exact arithmetic
    of the embedding; in binary64 the sum of the copies is rounded). *)
Theorem grand_statistics_identical_trials (trial : list (list Qc))
    (T C S : nat) :
  0 < T -> 0 < C -> length trial = C ->
  Forall (fun row => length row = S) trial ->
  grandAverage (replicate T trial) = trial /\
  grandVariance (replicate T trial) = replicate C (replicate S 0%Qc).
Proof.
  intros HT HC Hc Hr.
  assert (Hshape : well_shaped (replicate T trial) C S).
  { unfold well_shaped. apply List.Forall_forall. intros t Ht.
    apply list_elem_of_In, elem_of_replicate in Ht. destruct Ht as [-> _].
    now split. }
  assert (Hne : replicate T trial <> []) by (destruct T; [lia|discriminate]).
  destruct (well_shaped_dims _ C S Hshape Hne HC) as [HCv HSv].
  assert (Hacross : forall c s,
             across_trials (replicate T trial) c s =
             replicate T (nth s (nth c trial []) 0%Qc)).
  { intros c s. unfold across_trials.
    apply (map_replicate_const (fun t => nth s (nth c t []) 0%Qc) T trial). }
  rewrite List.Forall_forall in Hr.
  unfold grandAverage, grandVariance, range. rewrite HCv, HSv. split.
  - transitivity (map (fun i => nth i trial []) (seq 0 (length trial)));
      [|apply map_seq_nth].
    rewrite Hc. apply map_ext_in. intros c Hcin. apply in_seq in Hcin.
    assert (Hlen : length (nth c trial []) = S) by (apply Hr, nth_In; lia).
    transitivity (map (fun i => nth i (nth c trial []) 0%Qc)
                      (seq 0 (length (nth c trial []))));
      [|apply map_seq_nth].
    rewrite Hlen. apply map_ext. intros s. rewrite Hacross.
    now apply mean_replicate.
  - rewrite (map_ext _ (fun _ => replicate S 0%Qc)).
    + now rewrite map_const, length_seq.
    + intros c. rewrite (map_ext _ (fun _ => 0%Qc)).
      * now rewrite map_const, length_seq.
      * intros s. rewrite Hacross. now apply var_replicate.
Qed.

(** ** addOffset: the loop over the heap *)

(** What [addOffset] writes at index [x] of the first axis. *)
Lemma insert_imap_prefix {A : Type} (k : nat) :
  forall (f : nat -> A -> A) (v : list A) (x : A),
    v !! k = Some x ->
    <[k := f k x]> (imap f (take k v) ++ drop k v) =
    imap f (take (S k) v) ++ drop (S k) v.
Proof.
  induction k as [|k IH]; intros f [|a v] x Hx; try discriminate; cbn in *.
  - now injection Hx as ->.
  - f_equal. apply (IH (f ∘ S) v x Hx).
Qed.

Lemma addOffset_body_at (h : Heap) (eegVolume : nat) (value : Qc) (W : Volume)
    (x : nat) (block : list (list Qc)) :
  eegVolume < length h -> W !! x = Some block ->
  addOffset_body eegVolume value (<[eegVolume := W]> h) x =
    Ok (<[eegVolume :=
            <[x := map (map (fun y => (y + value * of_nat x)%Qc)) block]> W]> h).
Proof.
  intros Hl Hb. unfold addOffset_body, getitem.
  rewrite list_lookup_insert_eq by lia. cbn [mbind result_bind].
  rewrite Hb. cbn [mbind result_bind]. now rewrite list_insert_insert_eq.
Qed.

Lemma addOffset_loop (h : Heap) (eegVolume : nat) (value : Qc) (v : Volume) :
  eegVolume < length h ->
  forall m k : nat, k + m = length v ->
    for_each (addOffset_body eegVolume value) (seq k m)
      (<[eegVolume :=
           imap (fun x => map (map (fun y => (y + value * of_nat x)%Qc)))
                (take k v) ++ drop k v]> h) =
    Ok (<[eegVolume :=
            imap (fun x => map (map (fun y => (y + value * of_nat x)%Qc))) v]> h).
Proof.
  intros Hl m. induction m as [|m IH]; intros k Hk.
  - cbn. rewrite take_ge, drop_ge, app_nil_r by lia. reflexivity.
  - cbn [seq for_each].
    destruct (lookup_lt_is_Some_2 v k) as [block Hb]; [lia|].
    rewrite (addOffset_body_at h eegVolume value _ k block Hl).
    + cbn [mbind result_bind].
      rewrite (insert_imap_prefix k
                 (fun x => map (map (fun y => (y + value * of_nat x)%Qc)))
                 v block Hb).
      apply IH. lia.
    + rewrite lookup_app_r by (rewrite length_imap, length_take; lia).
      rewrite length_imap, length_take, lookup_drop.
      replace (k + (k - k `min` length v)) with k by lia. exact Hb.
Qed.

(** [addOffset] in full. *)
Lemma addOffset_spec (h : Heap) (eegVolume : nat) (value : Qc) (v : Volume) :
  h !! eegVolume = Some v ->
  addOffset eegVolume value h =
    Ok (eegVolume,
        <[eegVolume :=
            imap (fun x => map (map (fun y => (y + value * of_nat x)%Qc))) v]> h).
Proof.
  intros Hv.
  assert (Hl : eegVolume < length h) by (eapply lookup_lt_Some; eauto).
  unfold addOffset, getitem. rewrite Hv. cbn [mbind result_bind]. unfold range.
  pose proof (addOffset_loop h eegVolume value v Hl (length v) 0 eq_refl) as Hloop.
  rewrite take_0, drop_0 in Hloop. cbn [imap app] in Hloop.
  rewrite (list_insert_id h _ _ Hv) in Hloop. rewrite Hloop. reflexivity.
Qed.

Lemma imap_imap {A : Type} (f g : nat -> A -> A) (l : list A) :
  imap f (imap g l) = imap (fun x a => f x (g x a)) l.
Proof.
  revert f g. induction l as [|a l IH]; intros f g; cbn; [reflexivity|].
  f_equal. exact (IH (f ∘ S) (g ∘ S)).
Qed.

Lemma imap_id_ext {A : Type} (f : nat -> A -> A) (l : list A) :
  (forall x a, f x a = a) -> imap f l = l.
Proof.
  revert f. induction l as [|a l IH]; intros f Hf; cbn; [reflexivity|].
  rewrite Hf. f_equal. apply IH. intros x b. apply (Hf (S x) b).
Qed.

Lemma map_map_id_ext (f : Qc -> Qc) (block : list (list Qc)) :
  (forall y, f y = y) -> map (map f) block = block.
Proof.
  intros Hf. rewrite <- (map_id block) at 2. apply map_ext. intros row.
  rewrite <- (map_id row) at 2. now apply map_ext.
Qed.

(** X18.  [addOffset] works in place and returns the array it was
    given: after the call that array holds, at index [x] of its first
    axis, every value plus [value*x] (so index 0 is unchanged), and every
    other array is as before. *)
Theorem addOffset_in_place (h : Heap) (eegVolume : nat) (value : Qc) (v : Volume) :
  h !! eegVolume = Some v ->
  exists (h' : Heap) (out : Volume),
    addOffset eegVolume value h = Ok (eegVolume, h') /\
    h' !! eegVolume = Some out /\ length out = length v /\
    (forall (x : nat) (block : list (list Qc)),
       v !! x = Some block ->
       out !! x = Some (map (map (fun y => (y + value * of_nat x)%Qc)) block)) /\
    out !! 0 = v !! 0 /\
    forall a : nat, a <> eegVolume -> h' !! a = h !! a.
Proof.
  intros Hv.
  assert (Hl : eegVolume < length h) by (eapply lookup_lt_Some; eauto).
  exists (<[eegVolume :=
              imap (fun x => map (map (fun y => (y + value * of_nat x)%Qc))) v]> h),
    (imap (fun x => map (map (fun y => (y + value * of_nat x)%Qc))) v).
  split; [now apply addOffset_spec|].
  split; [now apply list_lookup_insert_eq|]. split; [apply length_imap|].
  split; [|split].
  - intros x block Hx. rewrite list_lookup_imap, Hx. reflexivity.
  - rewrite list_lookup_imap. destruct (v !! 0) as [block|]; [|reflexivity].
    cbn. f_equal. apply map_map_id_ext. intros y.
    change (of_nat 0) with 0%Qc. ring.
  - intros a Ha. now apply list_lookup_insert_ne.
Qed.

(** X19.  A call with the opposite value undoes a call: [addOffset]
    with [value] and then with [-value] on the same array leaves the heap
    as it was (in the exact arithmetic of the embedding). *)
Theorem addOffset_undo (h : Heap) (eegVolume : nat) (value : Qc) (v : Volume) :
  h !! eegVolume = Some v ->
  exists h1 : Heap,
    addOffset eegVolume value h = Ok (eegVolume, h1) /\
    addOffset eegVolume (- value)%Qc h1 = Ok (eegVolume, h).
Proof.
  intros Hv.
  assert (Hl : eegVolume < length h) by (eapply lookup_lt_Some; eauto).
  exists (<[eegVolume :=
              imap (fun x => map (map (fun y => (y + value * of_nat x)%Qc))) v]> h).
  split; [now apply addOffset_spec|].
  rewrite (addOffset_spec _ eegVolume (- value)%Qc _
             (list_lookup_insert_eq h eegVolume _ Hl)).
  rewrite list_insert_insert_eq, imap_imap.
  rewrite imap_id_ext; [now rewrite (list_insert_id h _ _ Hv)|].
  intros x block. rewrite map_map. rewrite <- (map_id block) at 2.
  apply map_ext. intros row. rewrite map_map. rewrite <- (map_id row) at 2.
  apply map_ext. intros y. ring.
Qed.

Lemma mean_added (l : list Qc) (a : Qc) :
  0 < length l -> mean (map (fun y => (y + a)%Qc) l) = (mean l + a)%Qc.
Proof.
  intros Hn. unfold mean. rewrite length_map.
  assert (H : sum (map (fun y => (y + a)%Qc) l) =
              (sum l + of_nat (length l) * a)%Qc).
  { rewrite (sum_added (fun y => y) a l). now rewrite map_id. }
  rewrite H. pose proof (of_nat_nonzero (length l) Hn). now field.
Qed.

(** X20.  An offset undoes the common-average reference: after
    [CARFilter] and then [addOffset] on the array it returned, the mean
    over the channels at every sample point of trial [x] is [value*x],
    not zero (volumes with [C >= 1] channels and [S] samples; in the
    exact arithmetic of the embedding). *)
Theorem addOffset_after_CARFilter (h : Heap) (eegVolume : nat) (value : Qc)
    (v : Volume) (C S : nat) :
  h !! eegVolume = Some v -> well_shaped v C S -> 0 < C ->
  exists (filtered : nat) (h1 h2 : Heap) (out : Volume),
    CARFilter eegVolume h = Ok (filtered, h1) /\
    addOffset filtered value h1 = Ok (filtered, h2) /\
    h2 !! filtered = Some out /\ length out = length v /\
    forall (x : nat) (trial : list (list Qc)),
      out !! x = Some trial ->
      forall s : nat, s < S ->
        mean (column trial s) = (value * of_nat x)%Qc.
Proof.
  intros Hv Hshape HC.
  set (h1 := <[eegVolume := map car v]> h ++ [map car v]).
  assert (H1 : h1 !! length h = Some (map car v)) by apply lookup_new_array.
  exists (length h), h1,
    (<[length h :=
         imap (fun x => map (map (fun y => (y + value * of_nat x)%Qc)))
              (map car v)]> h1),
    (imap (fun x => map (map (fun y => (y + value * of_nat x)%Qc))) (map car v)).
  split; [now apply CARFilter_spec|]. split; [now apply addOffset_spec|].
  split.
  { apply list_lookup_insert_eq. eapply lookup_lt_Some; eauto. }
  split; [now rewrite length_imap, length_map|].
  intros x trial' Hx s Hs. rewrite list_lookup_imap in Hx.
  change (map car v) with (car <$> v) in Hx. rewrite list_lookup_fmap in Hx.
  destruct (v !! x) as [trial|] eqn:Et; [|discriminate]. cbn in Hx.
  injection Hx as <-.
  assert (Htrial : In trial v).
  { apply list_elem_of_In, list_elem_of_lookup. eauto. }
  unfold well_shaped in Hshape. rewrite List.Forall_forall in Hshape.
  destruct (Hshape trial Htrial) as [Hc Hr].
  pose proof (car_rows trial S Hr) as Hr'. rewrite List.Forall_forall in Hr'.
  unfold column. rewrite map_map.
  rewrite (map_ext_in _ (fun row => (nth s row 0 + value * of_nat x)%Qc)).
  - rewrite <- (map_map (fun row => nth s row 0%Qc)
                        (fun y => (y + value * of_nat x)%Qc)).
    rewrite mean_added by (rewrite length_map, car_length; lia).
    fold (column (car trial) s).
    rewrite (car_mean_zero trial S s Hr) by lia. ring.
  - intros row Hrow.
    change (nth s (map (fun y => (y + value * of_nat x)%Qc) row) 0%Qc =
            (nth s row 0 + value * of_nat x)%Qc).
    rewrite (nth_indep _ 0%Qc (0 + value * of_nat x)%Qc)
      by (rewrite length_map, (Hr' row Hrow); lia).
    apply (map_nth (fun y => (y + value * of_nat x)%Qc)).
Qed.

(** ** getEEGTrials: whose annotations, and none at all *)

(** X21.  The recording passed as [gdf] only lends its samples: the
    onsets and labels are those of the instance, so two recordings with
    the same samples give the same result, whatever their annotations,
    channel names and sampling rates. *)
Theorem getEEGTrials_own_annotations (self : EEG) (pretime posttime : Qc)
    (error : ErrorLabel) (g1 g2 : Raw) (offset : bool) (offset_value : Qc)
    (plot : bool) (plot_trigger : Z) :
  _data g1 = _data g2 ->
  getEEGTrials self pretime posttime error (Some g1) offset offset_value plot
    plot_trigger =
  getEEGTrials self pretime posttime error (Some g2) offset offset_value plot
    plot_trigger.
Proof.
  intros Hdata. unfold getEEGTrials, getEEGTrials_prologue.
  destruct (identifyErrors self) as [[labels times]|e]; [|reflexivity].
  cbn [mbind result_bind time].
  rewrite (for_each_ext _
             (getEEGTrials_body
                {| gdf_use := Some g2;
                   pretime_s := (timeToSample pretime fs_default * of_Z (-1))%Qc;
                   posttime_s := timeToSample posttime fs_default;
                   error_array := labels;
                   time := timeArrayToSampleArray times (of_Z 512) |}
                error offset offset_value plot)); [reflexivity|].
  intros s x. unfold getEEGTrials_body.
  cbn [gdf_use pretime_s posttime_s error_array time].
  destruct (getitem labels x) as [e|]; [|reflexivity]. cbn [mbind result_bind].
  destruct (is_not_NaN e); [|reflexivity].
  destruct (label_eq e error); [|reflexivity].
  destruct (getitem _ x) as [t|]; [|reflexivity].
  cbn [attr mbind result_bind].
  unfold window, full_window, get_data, n_times.
  cbn [gdf_use pretime_s posttime_s error_array time].
  now rewrite Hdata.
Qed.

Lemma identifyErrors_inv (self : EEG) (labels : list ErrorLabel) (times : list Qc) :
  identifyErrors self = Ok (labels, times) ->
  exists (gdf : Raw) (mat : EE385VMatFile),
    __gdf self = Some gdf /\ __mat self = Some mat /\
    times = annotation_time (identifyErrors_prologue gdf mat).
Proof.
  unfold identifyErrors.
  destruct (__gdf self) as [gdf|]; [|discriminate].
  destruct (__mat self) as [mat|]; [|discriminate].
  cbn [attr mbind result_bind].
  destruct (for_each _ _ []) as [error|e]; [|discriminate].
  cbn [mbind result_bind]. intros [= <- <-]. now exists gdf, mat.
Qed.

Lemma slice_trim_short {A : Type} (l : list A) :
  length l <= 2 -> slice None (Some (-1)%Z) (slice (Some 1%Z) None l) = [].
Proof.
  intros Hl. rewrite slice_from_1, slice_to_last.
  replace (length (drop 1 l) - 1) with 0 by (rewrite length_drop; lia).
  reflexivity.
Qed.

(** X22.  A recording with no more than its two boundary annotations
    has no trials: [identifyErrors] returns no onsets, and [getEEGTrials]
    returns [None] without the plot and raises [TypeError] with it. *)
Theorem getEEGTrials_boundary_annotations_only (self : EEG) (gdf0 : Raw)
    (pretime posttime : Qc) (error : ErrorLabel) (gdf : option Raw)
    (offset : bool) (offset_value : Qc) (plot : bool) (plot_trigger : Z)
    (labels : list ErrorLabel) (times : list Qc) :
  __gdf self = Some gdf0 ->
  length (onset (annotations gdf0)) <= 2 ->
  identifyErrors self = Ok (labels, times) ->
  times = [] /\
  getEEGTrials self pretime posttime error gdf offset offset_value plot
    plot_trigger = if plot then Raise TypeError else Ok None.
Proof.
  intros Hg Hlen Hid.
  destruct (identifyErrors_inv self labels times Hid) as (g & mat & Hg' & _ & Ht).
  rewrite Hg in Hg'. injection Hg' as <-.
  assert (Hnil : times = []).
  { rewrite Ht. unfold identifyErrors_prologue. cbn [annotation_time].
    now apply slice_trim_short. }
  split; [exact Hnil|].
  unfold getEEGTrials, getEEGTrials_prologue. rewrite Hid, Hnil. reflexivity.
Qed.

(** ** power *)

Lemma square_abs (x : Qc) : (x * x = [x] * [x])%Qc.
Proof.
  rewrite <- Qcabs_Qcmult. symmetry. apply Qcabs_pos, square_nonneg.
Qed.

Lemma abs_abs (x : Qc) : ([[x]] = [x])%Qc.
Proof. apply Qcabs_pos, Qcabs_nonneg. Qed.

Lemma map3_ext {A B : Type} (f g : A -> B) (v : list (list (list A))) :
  (forall x, f x = g x) -> map (map (map f)) v = map (map (map g)) v.
Proof.
  intros H. apply map_ext. intros t. apply map_ext. intros r. now apply map_ext.
Qed.

Lemma map3_map3 {A B C : Type} (f : A -> B) (g : B -> C) (v : list (list (list A))) :
  map (map (map g)) (map (map (map f)) v) = map (map (map (fun x => g (f x)))) v.
Proof.
  rewrite map_map. apply map_ext. intros t. rewrite map_map.
  apply map_ext. intros r. apply map_map.
Qed.

(** X23.  For a square root that undoes the squaring of the numbers
    that are not negative, [power] returns the absolute value of every
    entry; applying it to its own result changes nothing. *)
Theorem power_absolute_value (sqrt : Qc -> Qc) (v : Volume) :
  (forall x : Qc, (0 <= x)%Qc -> sqrt (x * x)%Qc = x) ->
  power sqrt v = map (map (map Qcabs)) v /\
  power sqrt (power sqrt v) = power sqrt v.
Proof.
  intros Hsqrt.
  assert (Habs : forall w : Volume, power sqrt w = map (map (map Qcabs)) w).
  { intros w. unfold power. rewrite map3_map3. apply map3_ext. intros x.
    rewrite square_abs. apply Hsqrt, Qcabs_nonneg. }
  split; [apply Habs|].
  rewrite !Habs, map3_map3. apply map3_ext. intros x. apply abs_abs.
Qed.

(** ** The further properties on the examples *)

Lemma getEEGTrials_more_onsets_than_labels_witness :
  getEEGTrials Cases.self_short (Example.q 1 2) (of_Z 1) LFalse None false
    (of_Z 30) false 0 = Raise IndexError.
Proof.
  apply (getEEGTrials_more_onsets_than_labels Cases.self_short (Example.q 1 2)
           (of_Z 1) LFalse None false (of_Z 30) false 0 Cases.locals_short
           Example.recording).
  - vm_compute. reflexivity.
  - vm_compute. reflexivity.
  - vm_compute. lia.
Defined.

Lemma getEEGTrials_plot_adds_offsets_witness :
  getEEGTrials Example.self (Example.q 1 2) (of_Z 1) LFalse None true
    (of_Z 30) false 0 = Ok Cases.plotted.
Proof.
  apply (getEEGTrials_plot_adds_offsets Example.self (Example.q 1 2) (of_Z 1)
           LFalse None false (of_Z 30) 0 0 Cases.plotted).
  vm_compute. reflexivity.
Defined.

Lemma getEEGTrials_NaN_requested_witness :
  getEEGTrials Example.self (Example.q 1 2) (of_Z 1) NaN None false (of_Z 30)
    false 0 = Ok None.
Proof.
  apply (getEEGTrials_NaN_requested Example.self (Example.q 1 2) (of_Z 1) None
           false (of_Z 30) false 0 Example.locals Example.recording).
  - vm_compute. reflexivity.
  - vm_compute. reflexivity.
  - vm_compute. lia.
Defined.

Lemma getEEGTrials_error_and_no_error_witness :
  exists outT outF : option Volume,
    getEEGTrials Example.self (Example.q 1 2) (of_Z 1) LTrue None false
      (of_Z 30) false 0 = Ok outT /\
    getEEGTrials Example.self (Example.q 1 2) (of_Z 1) LFalse None false
      (of_Z 30) false 0 = Ok outF /\
    length (default [] outT) + length (default [] outF) =
      length (List.filter
                (fun x => match error_array Example.locals !! x,
                                time Example.locals !! x with
                          | Some e, Some t =>
                              is_not_NaN e &&
                              full_window Example.locals
                                (window Example.locals Example.recording t)
                          | _, _ => false
                          end)
                (range (length (time Example.locals)))).
Proof.
  apply (getEEGTrials_error_and_no_error Example.self (Example.q 1 2) (of_Z 1)
           None false (of_Z 30) 0 Example.locals Example.recording).
  - vm_compute. reflexivity.
  - vm_compute. reflexivity.
  - vm_compute. lia.
Defined.

Lemma getEEGTrials_window_inside_witness :
  window Example.locals Example.recording 512 =
    map (fun row => take (Z.to_nat (256 + 512)) (drop (Z.to_nat (512 - 256)) row))
        (_data Example.recording) /\
  full_window Example.locals (window Example.locals Example.recording 512) = true.
Proof.
  apply (getEEGTrials_window_inside Example.locals Example.recording 512 256 512).
  - apply Qc_is_canon. vm_compute. reflexivity.
  - apply Qc_is_canon. vm_compute. reflexivity.
  - repeat constructor.
  - discriminate.
  - lia.
  - vm_compute. discriminate.
Defined.

Lemma getEEGTrials_window_outside_witness :
  full_window Example.locals (window Example.locals Example.recording 1792)
    = false /\
  forall (error : ErrorLabel) (x : nat),
    time Example.locals !! x = Some 1792%Z ->
    kept Example.locals Example.recording error x = false.
Proof.
  apply (getEEGTrials_window_outside Example.locals Example.recording 1792 256
           512).
  - apply Qc_is_canon. vm_compute. reflexivity.
  - apply Qc_is_canon. vm_compute. reflexivity.
  - lia.
  - lia.
  - right. vm_compute. reflexivity.
Defined.

Lemma CARFilter_common_signal_witness :
  exists (f1 f2 : nat) (h1' h2' : Heap) (out : Volume),
    CARFilter 0 [Cases.volume2] = Ok (f1, h1') /\ h1' !! f1 = Some out /\
    CARFilter 0
      [map (map (fun row => zip_with Qcplus row Cases.signal)) Cases.volume2]
      = Ok (f2, h2') /\
    h2' !! f2 = Some out.
Proof.
  apply (CARFilter_common_signal [Cases.volume2]
           [map (map (fun row => zip_with Qcplus row Cases.signal)) Cases.volume2]
           0 0 Cases.volume2 Cases.signal 2 2).
  - reflexivity.
  - reflexivity.
  - repeat constructor.
  - reflexivity.
Defined.

Lemma CARFilter_single_channel_witness :
  exists (filtered : nat) (h' : Heap) (out : Volume),
    CARFilter 0 [Cases.volume1] = Ok (filtered, h') /\
    h' !! filtered = Some out /\
    out = map (fun _ => [replicate 2 0%Qc]) Cases.volume1.
Proof.
  apply (CARFilter_single_channel [Cases.volume1] 0 Cases.volume1 2).
  - reflexivity.
  - repeat constructor.
Defined.

Lemma grandAverage_of_CARFilter_witness :
  exists (filtered : nat) (h' : Heap) (out : Volume),
    CARFilter 0 [Cases.volume2] = Ok (filtered, h') /\
    h' !! filtered = Some out /\
    grandAverage out = car (grandAverage Cases.volume2) /\
    forall s : nat, s < 2 -> mean (column (grandAverage out) s) = 0%Qc.
Proof.
  apply (grandAverage_of_CARFilter [Cases.volume2] 0 Cases.volume2 2 2).
  - reflexivity.
  - repeat constructor.
  - discriminate.
  - lia.
Defined.

Lemma grand_statistics_permutation_witness :
  grandAverage [Cases.trial2; Cases.trial1] = grandAverage Cases.volume2 /\
  grandVariance [Cases.trial2; Cases.trial1] = grandVariance Cases.volume2.
Proof.
  apply (grand_statistics_permutation Cases.volume2
           [Cases.trial2; Cases.trial1] 2 2).
  - repeat constructor.
  - apply perm_swap.
Defined.

Lemma grand_statistics_identical_trials_witness :
  grandAverage (replicate 3 Cases.trial1) = Cases.trial1 /\
  grandVariance (replicate 3 Cases.trial1) = replicate 2 (replicate 2 0%Qc).
Proof.
  apply (grand_statistics_identical_trials Cases.trial1 3 2 2).
  - lia.
  - lia.
  - reflexivity.
  - repeat constructor.
Defined.

Lemma addOffset_in_place_witness :
  exists (h' : Heap) (out : Volume),
    addOffset 0 (Example.q 1 2) [Cases.volume2] = Ok (0, h') /\
    h' !! 0 = Some out /\ length out = length Cases.volume2 /\
    (forall (x : nat) (block : list (list Qc)),
       Cases.volume2 !! x = Some block ->
       out !! x =
         Some (map (map (fun y => (y + Example.q 1 2 * of_nat x)%Qc)) block)) /\
    out !! 0 = Cases.volume2 !! 0 /\
    forall a : nat, a <> 0 -> h' !! a = [Cases.volume2] !! a.
Proof.
  apply (addOffset_in_place [Cases.volume2] 0 (Example.q 1 2) Cases.volume2).
  reflexivity.
Defined.

Lemma addOffset_undo_witness :
  exists h1 : Heap,
    addOffset 0 (Example.q 1 2) [Cases.volume2] = Ok (0, h1) /\
    addOffset 0 (- Example.q 1 2)%Qc h1 = Ok (0, [Cases.volume2]).
Proof.
  apply (addOffset_undo [Cases.volume2] 0 (Example.q 1 2) Cases.volume2).
  reflexivity.
Defined.

Lemma addOffset_after_CARFilter_witness :
  exists (filtered : nat) (h1 h2 : Heap) (out : Volume),
    CARFilter 0 [Cases.volume2] = Ok (filtered, h1) /\
    addOffset filtered (Example.q 1 2) h1 = Ok (filtered, h2) /\
    h2 !! filtered = Some out /\ length out = length Cases.volume2 /\
    forall (x : nat) (trial : list (list Qc)),
      out !! x = Some trial ->
      forall s : nat, s < 2 ->
        mean (column trial s) = (Example.q 1 2 * of_nat x)%Qc.
Proof.
  apply (addOffset_after_CARFilter [Cases.volume2] 0 (Example.q 1 2)
           Cases.volume2 2 2).
  - reflexivity.
  - repeat constructor.
  - lia.
Defined.

Lemma getEEGTrials_own_annotations_witness :
  getEEGTrials Example.self (Example.q 1 2) (of_Z 1) LFalse
    (Some Example.recording) false (of_Z 30) false 0 =
  getEEGTrials Example.self (Example.q 1 2) (of_Z 1) LFalse
    (Some Cases.reannotated) false (of_Z 30) false 0.
Proof.
  apply (getEEGTrials_own_annotations Example.self (Example.q 1 2) (of_Z 1)
           LFalse Example.recording Cases.reannotated false (of_Z 30) false 0).
  reflexivity.
Defined.

Lemma getEEGTrials_boundary_annotations_only_witness :
  (@nil Qc) = [] /\
  getEEGTrials Cases.self_bare (Example.q 1 2) (of_Z 1) LFalse None false
    (of_Z 30) false 0 = Ok None.
Proof.
  apply (getEEGTrials_boundary_annotations_only Cases.self_bare Cases.bare
           (Example.q 1 2) (of_Z 1) LFalse None false (of_Z 30) false 0
           [LFalse; LTrue; LFalse] []).
  - reflexivity.
  - cbn. lia.
  - vm_compute. reflexivity.
Defined.

(** The square root of the examples undoes the squaring of the numbers
    that are not negative. *)
Lemma sqrt_square (x : Qc) : (0 <= x)%Qc -> Cases.sqrt (x * x)%Qc = x.
Proof.
  intros Hx. destruct x as [[n d] Hc].
  assert (Hn : (0 <= n)%Z).
  { unfold Qcle, Qle in Hx. cbn in Hx. change (Qred 0) with (0 # 1) in Hx.
    cbn in Hx. lia. }
  assert (Hgcd : Z.gcd n (Z.pos d) = 1%Z) by (apply (Qred_identity2 _ Hc)).
  assert (Hsq : Qred ((n # d) * (n # d)) = (n * n # d * d)).
  { apply Qred_identity. cbn.
    change (Z.pos (d * d)) with (Z.pos d * Z.pos d)%Z.
    apply Z.coprime_mul_r; apply Z.coprime_mul_l; exact Hgcd. }
  unfold Cases.sqrt, Qcmult. cbn [this Q2Qc]. rewrite Hsq. cbn [Qnum Qden].
  rewrite Z.sqrt_square by exact Hn.
  assert (Hd : Pos.sqrt (d * d) = d).
  { apply Pos2Z.inj. rewrite Pos2Z.inj_sqrt, Pos2Z.inj_mul.
    apply Z.sqrt_square. lia. }
  rewrite Hd. apply Qc_is_canon. cbn [this Q2Qc]. now rewrite Hc.
Qed.

Lemma power_absolute_value_witness :
  power Cases.sqrt Cases.volume2 = map (map (map Qcabs)) Cases.volume2 /\
  power Cases.sqrt (power Cases.sqrt Cases.volume2) =
    power Cases.sqrt Cases.volume2.
Proof.
  apply (power_absolute_value Cases.sqrt Cases.volume2). exact sqrt_square.
Defined.
